(** * Room fan-out server: the HTTP handlers, the subscriber registry and
      the broadcast of events to websocket subscribers.

    A shallow embedding of package [api] (the handler file and its
    [readRoom]/[sendJSON] helpers).  Shared state is threaded explicitly;
    every block the Go code runs under [h.mu] is one atomic function here. *)

From stdpp Require Import gmap strings list fin_maps pretty.

Set Warnings "-register-all,-clear-no-such-hyp".

Open Scope string_scope.
Open Scope list_scope.

(** ** JSON values, as [encoding/json] produces them *)

Inductive JSON :=
| JNull
| JStr (s : string)
| JInt (z : Z)
| JArr (items : list JSON)
| JObj (fields : list (string * JSON)).

Definition dquote : string := String (Ascii.Ascii false true false false false true false false) EmptyString.

Section Render.
(** The escaping of the characters inside a string literal is the
    encoder's business; it is a parameter of the text rendering. *)
Variable escape : string → string.

Fixpoint render (j : JSON) : string :=
  match j with
  | JNull => "null"
  | JStr s => dquote +:+ escape s +:+ dquote
  | JInt z => pretty z
  | JArr items =>
      "[" +:+
      (fix elems (l : list JSON) : string :=
         match l with
         | [] => EmptyString
         | x :: l' =>
             match l' with
             | [] => render x
             | _ => render x +:+ "," +:+ elems l'
             end
         end) items +:+ "]"
  | JObj fields =>
      "{" +:+
      (fix members (l : list (string * JSON)) : string :=
         match l with
         | [] => EmptyString
         | (k, x) :: l' =>
             let one := dquote +:+ escape k +:+ dquote +:+ ":" +:+ render x in
             match l' with
             | [] => one
             | _ => one +:+ "," +:+ members l'
             end
         end) fields +:+ "}"
  end.
End Render.

(** A Go slice: [None] is the nil slice, [Some []] an empty non-nil one. *)
Definition slice (A : Type) : Type := option (list A).

(** [json.Marshal] of a slice: a nil slice encodes as [null]. *)
Definition marshal_slice {A} (enc : A → JSON) (xs : slice A) : JSON :=
  match xs with
  | None => JNull
  | Some l => JArr (enc <$> l)
  end.

(** ** The event structs and their JSON tags *)

Module MessageMessageCreated.
Record t := mk { ID : string; Message : string }.
(** [json:"id"], [json:"message"] *)
Definition marshal (v : t) : JSON :=
  JObj [("id", JStr (ID v)); ("message", JStr (Message v))].
End MessageMessageCreated.

Module MessageMessageReactionCount.
Record t := mk { ID : string; Count : Z }.
(** [json:"id"], [json:"count"] *)
Definition marshal (v : t) : JSON :=
  JObj [("id", JStr (ID v)); ("count", JInt (Count v))].
End MessageMessageReactionCount.

(** The dynamic types this package stores in [Message.Value]. *)
Inductive any :=
| AnyNil
| AnyMessageCreated (v : MessageMessageCreated.t)
| AnyMessageReactionCount (v : MessageMessageReactionCount.t).

Definition marshal_any (v : any) : JSON :=
  match v with
  | AnyNil => JNull
  | AnyMessageCreated c => MessageMessageCreated.marshal c
  | AnyMessageReactionCount c => MessageMessageReactionCount.marshal c
  end.

Module Message.
Record t := mk { Kind : string; Value : any; RoomID : string }.
(** [json:"kind"], [json:"value"], [json:"-"]: RoomID is skipped. *)
Definition marshal (m : t) : JSON :=
  JObj [("kind", JStr (Kind m)); ("value", marshal_any (Value m))].
End Message.

Definition MsgFailedToGetMessage := "failed to get message".
Definition MsgFailedToGetRoom := "failed to get room".
Definition MsgFailedToGetRoomMessages := "failed to get room messages".
Definition MsgFailedToGetRooms := "failed to get rooms".
Definition MsgFailedToInsertMessage := "failed to insert message".
Definition MsgFailedToInsertRoom := "failed to insert room".
Definition MsgFailedToReactToMessage := "failed to react to message".
Definition MsgFailedToSendMessage := "failed to send message to client".
Definition MsgFailedToUpgradeConnection := "failed to upgrade to websocket connection".
Definition MsgInvalidJSON := "invalid json".
Definition MsgInvalidMessageID := "invalid message id".
Definition MsgInvalidRoomID := "invalid room id".
Definition MsgMessageNotFound := "message not found".
Definition MsgNewClientConnected := "new client connected".
Definition MsgRoomNotFound := "room not found".
Definition MsgSomethingWentWrong := "something went wrong".

Definition MessageKindMessageCreated := "message_created".
Definition MessageKindMessageRactionIncreased := "message_reaction_increased".
Definition MessageKindMessageRactionDecreased := "message_reaction_decreased".
Definition MessageKindMessageAnswered := "message_answered".

Definition StatusBadRequest : nat := 400.
Definition StatusNotFound : nat := 404.
Definition StatusInternalServerError : nat := 500.

(** ** Shared state and observable effects *)

(** A [*websocket.Conn] is known by its pointer; a [context.CancelFunc] by
    the context it cancels. *)
Abbreviation Conn := positive.
Abbreviation Ctx := positive.
Abbreviation CancelFunc := Ctx.

Inductive Level := LevelInfo | LevelWarn | LevelError.

Inductive Effect :=
| EHttpError (body : string) (status : nat)      (* http.Error(w, body, status) *)
| ESendJSON (body : JSON)                        (* sendJSON(w, data) *)
| ESlog (lvl : Level) (msg : string) (detail : string)
| EWriteJSON (conn : Conn) (payload : JSON) (ok : bool)
| ECancel (ctx : Ctx).

Abbreviation Registry := (gmap string (gmap Conn CancelFunc)).

Record Sys := mkSys {
  subscribers : Registry;               (* h.subscribers *)
  parked : gmap Conn (string * Ctx);    (* handleSubscribe calls waiting on ctx.Done() *)
  done : gset Ctx;                      (* contexts whose Done channel is closed *)
  broken : gset Conn;                   (* connections on which a write fails *)
  spawned : list Message.t;             (* go h.notifyClients(msg), not yet run *)
  next : positive;                      (* the next fresh pointer *)
  trace : list Effect                   (* effects so far, oldest first *)
}.

(** [NewHandler]: an empty registry. *)
Definition NewHandler : Sys :=
  mkSys ∅ ∅ ∅ ∅ [] 1%positive [].

Definition emit (e : Effect) (s : Sys) : Sys :=
  mkSys (subscribers s) (parked s) (done s) (broken s) (spawned s) (next s)
        (trace s ++ [e]).

Definition go_notifyClients (msg : Message.t) (s : Sys) : Sys :=
  mkSys (subscribers s) (parked s) (done s) (broken s) (spawned s ++ [msg])
        (next s) (trace s).

(** [cancel()]: closes the context's Done channel; calling it again changes
    nothing more. *)
Definition cancel (ctx : CancelFunc) (s : Sys) : Sys :=
  mkSys (subscribers s) (parked s) ({[ctx]} ∪ done s) (broken s) (spawned s)
        (next s) (trace s ++ [ECancel ctx]).

(** [conn.WriteJSON(msg)]: [true] when the write succeeds (err == nil). *)
Definition WriteJSON (conn : Conn) (msg : Message.t) (s : Sys) : Sys * bool :=
  let ok := bool_decide (conn ∉ broken s) in
  (emit (EWriteJSON conn (Message.marshal msg) ok) s, ok).

(** ** The registry operations of [handleSubscribe] *)

(** Lines 140-144: create the room's set when missing, then store.  The
    second lookup always finds the set (a store into a nil map would panic). *)
Definition register (room : string) (c : Conn) (cancel : CancelFunc)
    (subs : Registry) : Registry :=
  let subs1 :=
    match subs !! room with
    | Some _ => subs
    | None => <[room := ∅]> subs
    end in
  match subs1 !! room with
  | Some m => <[room := <[c := cancel]> m]> subs1
  | None => subs1
  end.

(** Line 150, [delete(h.subscribers[rawRoomID], c)]: the inner map is updated
    in place; on a missing room the lookup yields a nil map and [delete] does
    nothing. *)
Definition unregister (room : string) (c : Conn) (subs : Registry) : Registry :=
  match subs !! room with
  | Some m => <[room := delete c m]> subs
  | None => subs
  end.

(** The subscribers a lookup of [room] sees; an absent room reads as the
    nil map. *)
Definition room_subscribers (subs : Registry) (room : string) : gmap Conn CancelFunc :=
  default ∅ (subs !! room).

(** ** [notifyClients] *)

(** One iteration of the loop body.  The log line carries the attribute
    [error]; the text of the write error is not tracked. *)
Definition notify_one (msg : Message.t) (s : Sys) (entry : Conn * CancelFunc) : Sys :=
  let '(s1, ok) := WriteJSON entry.1 msg s in
  if ok then s1
  else cancel entry.2 (emit (ESlog LevelError MsgFailedToSendMessage "error") s1).

(** [range] is the order in which Go's [for ... range] visits the map; the
    language leaves it unspecified, so it is an argument. *)
Definition notifyClients (range : gmap Conn CancelFunc → list (Conn * CancelFunc))
    (msg : Message.t) (s : Sys) : Sys :=
  match subscribers s !! Message.RoomID msg with
  | None => s
  | Some subcribers =>
      if decide (size subcribers = 0) then s
      else foldl (notify_one msg) s (range subcribers)
  end.

(** ** The persistence collaborator and the request *)

(** What a query reports besides a value: [pgx.ErrNoRows], or any other
    error with its text. *)
Inductive DbErr := ErrNoRows | ErrOther (detail : string).

Inductive Result (A : Type) :=
| Ok (a : A)
| Err (e : DbErr).
Arguments Ok {A} a.
Arguments Err {A} e.

Definition err_Error (e : DbErr) : string :=
  match e with
  | ErrNoRows => "no rows in result set"
  | ErrOther detail => detail
  end.

(** How [h.upgrader.Upgrade] fails.  The upgrader is built without an
    [Error] hook, so when it rejects the handshake it answers on [w] itself
    with [http.Error] before it returns its error: [upgrade_reply] is that
    text and status, [None] when the failure comes after the connection was
    taken over and nothing was written on [w]. *)
Record UpgradeError := mkUpgradeError {
  upgrade_err : string;
  upgrade_reply : option (string * nat)
}.

(** What a handler reads from its [*http.Request]. *)
Record Request := mkRequest {
  room_id : string;               (* chi.URLParam(r, "room_id") *)
  message_id : string;            (* chi.URLParam(r, "message_id") *)
  RemoteAddr : string;
  Body : option string;           (* the one field Decode fills; None: Decode errs *)
  Upgrade : option UpgradeError   (* how h.upgrader.Upgrade fails, if it does *)
}.

(** What the caller of the HTTP endpoint receives. *)
Definition http_visible (e : Effect) : bool :=
  match e with
  | EHttpError _ _ | ESendJSON _ => true
  | _ => false
  end.

Section Handlers.

(** [uuid.UUID], the rows of [pgstore] and their encodings are declared
    outside this package. *)
Context {UUID Room StoredMessage : Type}.
Variable uuid_Parse : string → option UUID.
Variable uuid_String : UUID → string.
Variable marshal_Room : Room → JSON.
Variable marshal_StoredMessage : StoredMessage → JSON.

(** [*pgstore.Queries], as answered during one request. *)
Record Queries := mkQueries {
  GetRoom : UUID → Result Room;
  GetRooms : Result (slice Room);
  InsertRoom : string → Result UUID;
  GetRoomMessages : UUID → Result (slice StoredMessage);
  InsertMessage : UUID → string → Result UUID;
  GetMessage : UUID → Result StoredMessage;
  ReactToMessage : UUID → Result Z
}.

(** [readRoom]: [None] stands for [ok == false] (with the zero values). *)
Definition readRoom (q : Queries) (r : Request) (s : Sys)
    : Sys * option (Room * string * UUID) :=
  let rawRoomID := room_id r in
  match uuid_Parse rawRoomID with
  | None => (emit (EHttpError MsgInvalidRoomID StatusBadRequest) s, None)
  | Some roomID =>
      match GetRoom q roomID with
      | Err err =>
          match err with
          | ErrNoRows => (emit (EHttpError MsgRoomNotFound StatusBadRequest) s, None)
          | _ =>
              (emit (EHttpError MsgSomethingWentWrong StatusInternalServerError)
                 (emit (ESlog LevelError MsgFailedToGetRoom (err_Error err)) s), None)
          end
      | Ok room => (s, Some (room, rawRoomID, roomID))
      end
  end.

Definition sendJSON (data : JSON) (s : Sys) : Sys := emit (ESendJSON data) s.

(** [handleSubscribe], lines 123-145: up to the moment the call blocks on
    [<-ctx.Done()]. *)
Definition handleSubscribe_enter (q : Queries) (r : Request) (s : Sys) : Sys :=
  match readRoom q r s with
  | (s1, None) => s1
  | (s1, Some (_, rawRoomID, _)) =>
      match Upgrade r with
      | Some err =>
          let s2 :=
            match upgrade_reply err with
            | Some (body, status) => emit (EHttpError body status) s1
            | None => s1
            end in
          emit (EHttpError MsgFailedToUpgradeConnection StatusBadRequest)
            (emit (ESlog LevelWarn MsgFailedToUpgradeConnection (upgrade_err err)) s2)
      | None =>
          let c : Conn := next s1 in
          let ctx : Ctx := next s1 in
          let s2 := emit (ESlog LevelInfo MsgNewClientConnected rawRoomID) s1 in
          mkSys (register rawRoomID c ctx (subscribers s2))
                (<[c := (rawRoomID, ctx)]> (parked s2))
                (done s2) (broken s2) (spawned s2) (Pos.succ (next s2)) (trace s2)
      end
  end.

(** [handleSubscribe], lines 146-151, for the call that owns [c]: it wakes
    once its context is done, removes [c] and returns. *)
Definition handleSubscribe_exit (c : Conn) (s : Sys) : Sys :=
  match parked s !! c with
  | Some (rawRoomID, ctx) =>
      if decide (ctx ∈ done s) then
        mkSys (unregister rawRoomID c (subscribers s)) (delete c (parked s))
              (done s) (broken s) (spawned s) (next s) (trace s)
      else s
  | None => s
  end.

Definition handleGetRooms (q : Queries) (r : Request) (s : Sys) : Sys :=
  match GetRooms q with
  | Err err =>
      emit (EHttpError MsgSomethingWentWrong StatusInternalServerError)
        (emit (ESlog LevelError MsgFailedToGetRooms (err_Error err)) s)
  | Ok rooms =>
      let rooms := match rooms with None => Some [] | Some _ => rooms end in
      sendJSON (marshal_slice marshal_Room rooms) s
  end.

Definition handleGetRoom (q : Queries) (r : Request) (s : Sys) : Sys :=
  match readRoom q r s with
  | (s1, None) => s1
  | (s1, Some (room, _, _)) => sendJSON (marshal_Room room) s1
  end.

Definition handleCreateRoom (q : Queries) (r : Request) (s : Sys) : Sys :=
  match Body r with
  | None => emit (EHttpError MsgInvalidJSON StatusBadRequest) s
  | Some theme =>
      match InsertRoom q theme with
      | Err err =>
          emit (EHttpError MsgSomethingWentWrong StatusInternalServerError)
            (emit (ESlog LevelError MsgFailedToInsertRoom (err_Error err)) s)
      | Ok roomID => sendJSON (JObj [("id", JStr (uuid_String roomID))]) s
      end
  end.

Definition handleGetRoomMessages (q : Queries) (r : Request) (s : Sys) : Sys :=
  match readRoom q r s with
  | (s1, None) => s1
  | (s1, Some (_, _, roomID)) =>
      match GetRoomMessages q roomID with
      | Err err =>
          emit (EHttpError MsgSomethingWentWrong StatusInternalServerError)
            (emit (ESlog LevelError MsgFailedToGetRoomMessages (err_Error err)) s1)
      | Ok messages =>
          let messages := match messages with None => Some [] | Some _ => messages end in
          sendJSON (marshal_slice marshal_StoredMessage messages) s1
      end
  end.

Definition handleCreateRoomMessage (q : Queries) (r : Request) (s : Sys) : Sys :=
  match readRoom q r s with
  | (s1, None) => s1
  | (s1, Some (_, rawRoomID, roomID)) =>
      match Body r with
      | None => emit (EHttpError MsgInvalidJSON StatusBadRequest) s1
      | Some message =>
          match InsertMessage q roomID message with
          | Err err =>
              emit (EHttpError MsgSomethingWentWrong StatusInternalServerError)
                (emit (ESlog LevelError MsgFailedToInsertMessage (err_Error err)) s1)
          | Ok messageID =>
              go_notifyClients
                (Message.mk MessageKindMessageCreated
                   (AnyMessageCreated
                      (MessageMessageCreated.mk (uuid_String messageID) message))
                   rawRoomID)
                (sendJSON (JObj [("id", JStr (uuid_String messageID))]) s1)
          end
      end
  end.

Definition handleGetRoomMessage (q : Queries) (r : Request) (s : Sys) : Sys :=
  match readRoom q r s with
  | (s1, None) => s1
  | (s1, Some _) =>
      match uuid_Parse (message_id r) with
      | None => emit (EHttpError MsgInvalidMessageID StatusBadRequest) s1
      | Some messageID =>
          match GetMessage q messageID with
          | Err err =>
              match err with
              | ErrNoRows => emit (EHttpError MsgMessageNotFound StatusNotFound) s1
              | _ =>
                  emit (EHttpError MsgSomethingWentWrong StatusInternalServerError)
                    (emit (ESlog LevelError MsgFailedToGetMessage (err_Error err)) s1)
              end
          | Ok message => sendJSON (marshal_StoredMessage message) s1
          end
      end
  end.

Definition handleReactToMessage (q : Queries) (r : Request) (s : Sys) : Sys :=
  match readRoom q r s with
  | (s1, None) => s1
  | (s1, Some (_, rawRoomID, _)) =>
      let rawMessageID := message_id r in
      match uuid_Parse rawMessageID with
      | None => emit (EHttpError MsgInvalidMessageID StatusBadRequest) s1
      | Some messageID =>
          match ReactToMessage q messageID with
          | Err err =>
              emit (EHttpError MsgSomethingWentWrong StatusInternalServerError)
                (emit (ESlog LevelError MsgFailedToReactToMessage (err_Error err)) s1)
          | Ok count =>
              go_notifyClients
                (Message.mk MessageKindMessageRactionIncreased
                   (AnyMessageReactionCount
                      (MessageMessageReactionCount.mk rawMessageID count))
                   rawRoomID)
                (sendJSON (JObj [("count", JInt count)]) s1)
          end
      end
  end.

Definition handleRemoveReactFromMessage (q : Queries) (r : Request) (s : Sys) : Sys := s.

Definition handleMarkMessageAsAnswered (q : Queries) (r : Request) (s : Sys) : Sys := s.

(** ** The routes of [NewHandler] and the interleavings of the server *)

Inductive Route :=
| GetSubscribe
| GetRooms_
| PostRooms
| GetRoom_
| GetMessages
| PostMessages
| GetMessage_
| PatchReact
| DeleteReact
| PatchAnswer.

Definition ServeHTTP (route : Route) : Queries → Request → Sys → Sys :=
  match route with
  | GetSubscribe => handleSubscribe_enter
  | GetRooms_ => handleGetRooms
  | PostRooms => handleCreateRoom
  | GetRoom_ => handleGetRoom
  | GetMessages => handleGetRoomMessages
  | PostMessages => handleCreateRoomMessage
  | GetMessage_ => handleGetRoomMessage
  | PatchReact => handleReactToMessage
  | DeleteReact => handleRemoveReactFromMessage
  | PatchAnswer => handleMarkMessageAsAnswered
  end.

(** One atomic move of the server or of its environment. *)
Inductive Action :=
| AServe (route : Route) (q : Queries) (r : Request)
| AWake (c : Conn)                                   (* a parked handleSubscribe resumes *)
| AGo (i : nat) (range : gmap Conn CancelFunc → list (Conn * CancelFunc))
                                                     (* the i-th spawned notifyClients runs *)
| AParentDone (ctx : Ctx)                            (* the request context is cancelled *)
| ABreak (c : Conn).                                 (* writes on c fail from now on *)

Definition exec (a : Action) (s : Sys) : Sys :=
  match a with
  | AServe route q r => ServeHTTP route q r s
  | AWake c => handleSubscribe_exit c s
  | AGo i range =>
      match spawned s !! i with
      | Some msg =>
          notifyClients range msg
            (mkSys (subscribers s) (parked s) (done s) (broken s)
                   (take i (spawned s) ++ drop (S i) (spawned s)) (next s) (trace s))
      | None => s
      end
  | AParentDone ctx =>
      mkSys (subscribers s) (parked s) ({[ctx]} ∪ done s) (broken s) (spawned s)
            (next s) (trace s)
  | ABreak c =>
      mkSys (subscribers s) (parked s) (done s) ({[c]} ∪ broken s) (spawned s)
            (next s) (trace s)
  end.

Definition run (acts : list Action) (s : Sys) : Sys :=
  foldl (λ s a, exec a s) s acts.

(** ** Reading a trace *)

(** The effects [s'] has added to those of [s]. *)
Definition since (s s' : Sys) : list Effect := drop (length (trace s)) (trace s').

(** The connections written to, and the cancellations invoked, in order. *)
Definition sends (t : list Effect) : list Conn :=
  omap (λ e, match e with EWriteJSON c _ _ => Some c | _ => None end) t.

Definition cancels (t : list Effect) : list Ctx :=
  omap (λ e, match e with ECancel ctx => Some ctx | _ => None end) t.

(** What one loop iteration of [notifyClients] adds to the trace when the
    broken connections are [bad]. *)
Definition notify_one_effects (bad : gset Conn) (msg : Message.t)
    (entry : Conn * CancelFunc) : list Effect :=
  if decide (entry.1 ∈ bad)
  then [EWriteJSON entry.1 (Message.marshal msg) false;
        ESlog LevelError MsgFailedToSendMessage "error";
        ECancel entry.2]
  else [EWriteJSON entry.1 (Message.marshal msg) true].

(** The subscribers of a room on which a write fails. *)
Definition failing (bad : gset Conn) (subs : gmap Conn CancelFunc) : list (Conn * CancelFunc) :=
  filter (λ entry, entry.1 ∈ bad) (map_to_list subs).

(** The entries a dispatch visits: none when the guard returns early. *)
Definition visited (range : gmap Conn CancelFunc → list (Conn * CancelFunc))
    (msg : Message.t) (s : Sys) : list (Conn * CancelFunc) :=
  match subscribers s !! Message.RoomID msg with
  | Some m => if decide (size m = 0) then [] else range m
  | None => []
  end.

(** A handle is registered under a room. *)
Definition registered (subs : Registry) (room : string) (c : Conn) : Prop :=
  is_Some (room_subscribers subs room !! c).

(** No handle is registered under two rooms. *)
Definition one_room (subs : Registry) : Prop :=
  ∀ c room1 room2, registered subs room1 c → registered subs room2 c → room1 = room2.

(** The events the handlers build before they spawn a dispatch. *)
Definition produced (m : Message.t) : Prop :=
  (Message.Kind m = MessageKindMessageCreated
   ∧ ∃ v, Message.Value m = AnyMessageCreated v)
  ∨ (Message.Kind m = MessageKindMessageRactionIncreased
     ∧ ∃ v, Message.Value m = AnyMessageReactionCount v).

(** A step that touches neither a connection nor a context. *)
Definition silent (e : Effect) : Prop :=
  match e with
  | EWriteJSON _ _ _ | ECancel _ => False
  | _ => True
  end.

(** A step of a request handler that leaves the registry alone. *)
Definition quiet (s s' : Sys) : Prop :=
  subscribers s' = subscribers s
  ∧ parked s' = parked s
  ∧ done s' = done s
  ∧ broken s' = broken s
  ∧ next s' = next s
  ∧ (∃ t, trace s' = trace s ++ t ∧ Forall silent t)
  ∧ (∃ ms, spawned s' = spawned s ++ ms ∧ Forall produced ms).

(** A write carries the encoding of an event some handler built. *)
Definition wire_ok (e : Effect) : Prop :=
  match e with
  | EWriteJSON _ payload _ => ∃ m, produced m ∧ payload = Message.marshal m
  | _ => True
  end.

(** Every registered handle was allocated earlier, and sits in one room. *)
Definition registry_inv (s : Sys) : Prop :=
  (∀ room c, registered (subscribers s) room c → (c < next s)%positive)
  ∧ one_room (subscribers s).

(** The routes whose handlers start by resolving the room. *)
Definition room_routes : list Route :=
  [GetSubscribe; GetRoom_; GetMessages; PostMessages; GetMessage_; PatchReact].

(** The registry holds exactly the parked [handleSubscribe] calls, each
    under its own room and with the cancellation of its own context. *)
Definition lifecycle_inv (s : Sys) : Prop :=
  (∀ room c ctx,
     room_subscribers (subscribers s) room !! c = Some ctx
     ↔ parked s !! c = Some (room, ctx))
  ∧ (∀ c room ctx, parked s !! c = Some (room, ctx) → (c < next s)%positive ∧ ctx = c).

(** The routes that always answer the caller, and the two empty handlers. *)
Definition answering_routes : list Route :=
  [GetRooms_; PostRooms; GetRoom_; GetMessages; PostMessages; GetMessage_; PatchReact].

Definition stub_routes : list Route := [DeleteReact; PatchAnswer].

(** What the upgrader itself has answered on [w] when it failed with
    [err]. *)
Definition Upgrade_reply (err : UpgradeError) : list Effect :=
  match upgrade_reply err with
  | Some (body, status) => [EHttpError body status]
  | None => []
  end.

(** The same for a request: nothing when its upgrade succeeds. *)
Definition upgrader_reply (r : Request) : list Effect :=
  match Upgrade r with
  | Some err => Upgrade_reply err
  | None => []
  end.


(** ** The dispatch loop *)

Lemma since_app s s' t : trace s' = trace s ++ t → since s s' = t.
Proof. intros H. unfold since. rewrite H. by rewrite drop_app_length. Qed.

Lemma since_refl s : since s s = [].
Proof. apply since_app. by rewrite app_nil_r. Qed.

Lemma notify_one_spec msg s entry :
  subscribers (notify_one msg s entry) = subscribers s
  ∧ parked (notify_one msg s entry) = parked s
  ∧ broken (notify_one msg s entry) = broken s
  ∧ spawned (notify_one msg s entry) = spawned s
  ∧ next (notify_one msg s entry) = next s
  ∧ trace (notify_one msg s entry) = trace s ++ notify_one_effects (broken s) msg entry
  ∧ done (notify_one msg s entry)
    = list_to_set (cancels (notify_one_effects (broken s) msg entry)) ∪ done s.
Proof.
  unfold notify_one, notify_one_effects, WriteJSON. destruct entry as [c ctx]; simpl.
  destruct (decide (c ∈ broken s)) as [Hin|Hin].
  - rewrite bool_decide_eq_false_2 by (intros ?; done). simpl.
    rewrite <- !app_assoc. repeat split; try done. set_solver.
  - rewrite bool_decide_eq_true_2 by done. simpl. repeat split; try done. set_solver.
Qed.

Lemma cancels_app t1 t2 : cancels (t1 ++ t2) = cancels t1 ++ cancels t2.
Proof. apply omap_app. Qed.

Lemma sends_app t1 t2 : sends (t1 ++ t2) = sends t1 ++ sends t2.
Proof. apply omap_app. Qed.

Lemma notify_loop_spec msg l : ∀ s,
  let s' := foldl (notify_one msg) s l in
  subscribers s' = subscribers s
  ∧ parked s' = parked s
  ∧ broken s' = broken s
  ∧ spawned s' = spawned s
  ∧ next s' = next s
  ∧ trace s' = trace s ++ (l ≫= notify_one_effects (broken s) msg)
  ∧ done s' = list_to_set (cancels (l ≫= notify_one_effects (broken s) msg)) ∪ done s.
Proof.
  induction l as [|entry l IH]; intros s; csimpl.
  - rewrite app_nil_r. repeat split; try done. set_solver.
  - destruct (notify_one_spec msg s entry) as (H1 & H2 & H3 & H4 & H5 & H6 & H7).
    destruct (IH (notify_one msg s entry)) as (I1 & I2 & I3 & I4 & I5 & I6 & I7).
    simpl in *. rewrite I1, I2, I3, I4, I5, I6, I7, H3, H6, H7, cancels_app, <- app_assoc.
    repeat split; try done. rewrite list_to_set_app_L. set_solver.
Qed.

Lemma sends_notify_effects bad msg l :
  sends (l ≫= notify_one_effects bad msg) = l.*1.
Proof.
  induction l as [|[c ctx] l IH]; [done|]. csimpl. rewrite sends_app, IH.
  unfold notify_one_effects; simpl. by destruct (decide (c ∈ bad)).
Qed.

Lemma cancels_notify_effects bad msg l :
  cancels (l ≫= notify_one_effects bad msg) = (filter (λ entry, entry.1 ∈ bad) l).*2.
Proof.
  induction l as [|[c ctx] l IH]; [done|]. csimpl. rewrite cancels_app, IH.
  unfold notify_one_effects; simpl. rewrite filter_cons. simpl.
  by destruct (decide (c ∈ bad)).
Qed.

Lemma notifyClients_visited range msg s :
  let s' := notifyClients range msg s in
  let l := visited range msg s in
  subscribers s' = subscribers s
  ∧ parked s' = parked s
  ∧ broken s' = broken s
  ∧ spawned s' = spawned s
  ∧ next s' = next s
  ∧ trace s' = trace s ++ (l ≫= notify_one_effects (broken s) msg)
  ∧ done s' = list_to_set (cancels (l ≫= notify_one_effects (broken s) msg)) ∪ done s.
Proof.
  unfold notifyClients, visited.
  destruct (subscribers s !! Message.RoomID msg) as [m|] eqn:Hm; simpl.
  - destruct (decide (size m = 0)) as [Hz|Hz].
    + csimpl. rewrite app_nil_r. repeat split; try done. set_solver.
    + apply notify_loop_spec.
  - rewrite app_nil_r. repeat split; try done. set_solver.
Qed.

Lemma visited_range range msg s :
  range ∅ = [] →
  visited range msg s = range (room_subscribers (subscribers s) (Message.RoomID msg)).
Proof.
  intros Hempty. unfold visited, room_subscribers.
  destruct (subscribers s !! Message.RoomID msg) as [m|]; simpl; [|done].
  destruct (decide (size m = 0)) as [Hz|Hz]; [|done].
  apply map_size_empty_inv in Hz. by subst m.
Qed.

(** What a whole dispatch does, in terms of the order the range yields. *)
Lemma notifyClients_spec range msg s :
  let subs := room_subscribers (subscribers s) (Message.RoomID msg) in
  let s' := notifyClients range msg s in
  range ∅ = [] →
  subscribers s' = subscribers s
  ∧ parked s' = parked s
  ∧ broken s' = broken s
  ∧ spawned s' = spawned s
  ∧ next s' = next s
  ∧ trace s' = trace s ++ (range subs ≫= notify_one_effects (broken s) msg)
  ∧ done s' = list_to_set (cancels (range subs ≫= notify_one_effects (broken s) msg)) ∪ done s.
Proof.
  intros subs s' Hempty. subst subs s'.
  rewrite <- (visited_range range msg s Hempty). apply notifyClients_visited.
Qed.

Lemma range_perm_empty (range : gmap Conn CancelFunc → list (Conn * CancelFunc)) :
  (∀ m, range m ≡ₚ map_to_list m) → range ∅ = [].
Proof. intros H. apply Permutation_nil_r. by rewrite H, map_to_list_empty. Qed.

(** C1. A dispatch for a room attempts a send to every subscriber of the
    room exactly once: the connections written to are the registered ones,
    none twice, N of them for N subscribers.  The set [broken s] of failing
    connections is arbitrary, so a failed send never stops the others. *)
Theorem notifyClients_sends_to_each_subscriber_once
    (range : gmap Conn CancelFunc → list (Conn * CancelFunc)) msg s :
  (∀ m, range m ≡ₚ map_to_list m) →
  let subs := room_subscribers (subscribers s) (Message.RoomID msg) in
  let attempted := sends (since s (notifyClients range msg s)) in
  (∀ c, c ∈ attempted ↔ is_Some (subs !! c))
  ∧ NoDup attempted
  ∧ length attempted = size subs.
Proof.
  intros Hrange subs attempted.
  destruct (notifyClients_spec range msg s (range_perm_empty range Hrange))
    as (_ & _ & _ & _ & _ & Htrace & _).
  assert (Hperm : attempted ≡ₚ (map_to_list subs).*1).
  { subst attempted. rewrite (since_app _ _ _ Htrace), sends_notify_effects.
    by rewrite Hrange. }
  split; [|split].
  - intros c. rewrite Hperm, list_elem_of_fmap. split.
    + intros [[c' ctx] [-> Hin]]. apply elem_of_map_to_list in Hin. by exists ctx.
    + intros [ctx Hc]. exists (c, ctx). split; [done|]. by apply elem_of_map_to_list.
  - rewrite Hperm. apply NoDup_fst_map_to_list.
  - rewrite Hperm, length_fmap. apply length_map_to_list.
Qed.

(** C2 (as amended). Each dispatch invokes the cancellation of every
    subscriber whose send fails exactly once; a second dispatch before the
    subscriber is removed invokes it once more, and that second invocation
    changes nothing: the context was done after the first. *)
Theorem notifyClients_cancels_once_per_dispatch
    (range range' : gmap Conn CancelFunc → list (Conn * CancelFunc)) msg s :
  (∀ m, range m ≡ₚ map_to_list m) →
  (∀ m, range' m ≡ₚ map_to_list m) →
  let subs := room_subscribers (subscribers s) (Message.RoomID msg) in
  let s1 := notifyClients range msg s in
  let s2 := notifyClients range' msg s1 in
  cancels (since s s1) ≡ₚ (failing (broken s) subs).*2
  ∧ done s1 = list_to_set (failing (broken s) subs).*2 ∪ done s
  ∧ cancels (since s1 s2) ≡ₚ (failing (broken s) subs).*2
  ∧ done s2 = done s1.
Proof.
  intros Hrange Hrange' subs s1 s2.
  destruct (notifyClients_spec range msg s (range_perm_empty range Hrange))
    as (Hsubs & _ & Hbroken & _ & _ & Htrace & Hdone).
  destruct (notifyClients_spec range' msg s1 (range_perm_empty range' Hrange'))
    as (_ & _ & _ & _ & _ & Htrace' & Hdone').
  fold s1 in Hsubs, Hbroken, Htrace, Hdone. fold s2 in Htrace', Hdone'.
  rewrite Hsubs, Hbroken in Htrace', Hdone'. fold subs in Htrace, Hdone, Htrace', Hdone'.
  rewrite cancels_notify_effects in Hdone, Hdone'.
  assert (Hp : ∀ rg : gmap Conn CancelFunc → list (Conn * CancelFunc),
             (∀ m, rg m ≡ₚ map_to_list m) →
             (filter (λ entry, entry.1 ∈ broken s) (rg subs)).*2
             ≡ₚ (failing (broken s) subs).*2).
  { intros rg Hrg. unfold failing. by rewrite Hrg. }
  split; [|split; [|split]].
  - rewrite (since_app _ _ _ Htrace), cancels_notify_effects. by apply Hp.
  - rewrite Hdone. apply set_eq. intros x.
    by rewrite !elem_of_union, !elem_of_list_to_set, (Hp range Hrange).
  - rewrite (since_app _ _ _ Htrace'), cancels_notify_effects. by apply Hp.
  - rewrite Hdone', Hdone. apply set_eq. intros x.
    rewrite !elem_of_union, !elem_of_list_to_set, (Hp range Hrange), (Hp range' Hrange').
    tauto.
Qed.

(** C4. When the room's set is absent from the registry, or present and
    empty, a dispatch returns having changed nothing and written to no
    connection; both cases give the same result. *)
Theorem notifyClients_no_subscribers
    (range : gmap Conn CancelFunc → list (Conn * CancelFunc)) msg s :
  subscribers s !! Message.RoomID msg = None
  ∨ subscribers s !! Message.RoomID msg = Some ∅ →
  notifyClients range msg s = s
  ∧ sends (since s (notifyClients range msg s)) = [].
Proof.
  intros H.
  assert (Hs : notifyClients range msg s = s).
  { unfold notifyClients. destruct H as [-> | ->]; [done|].
    rewrite decide_True; [done|]. apply map_size_empty. }
  rewrite Hs, since_refl. done.
Qed.

(** C6. Removing a handle from a room is idempotent: doing it twice equals
    doing it once, and when the handle is not in the room (the room's set
    is missing, or does not hold it) the registry is left as it was. *)
Theorem unregister_idempotent room c (subs : Registry) :
  unregister room c (unregister room c subs) = unregister room c subs
  ∧ (room_subscribers subs room !! c = None → unregister room c subs = subs).
Proof.
  unfold unregister, room_subscribers. destruct (subs !! room) as [m|] eqn:Hm; simpl.
  - rewrite lookup_insert_eq, insert_insert_eq, delete_delete_eq. split; [done|].
    intros Hc. rewrite delete_id by done. by apply insert_id.
  - rewrite Hm. done.
Qed.

(** ** The registry *)

Lemma lookup_register room c ctx (subs : Registry) room' c' :
  room_subscribers (register room c ctx subs) room' !! c'
  = if decide (room' = room ∧ c' = c) then Some ctx
    else room_subscribers subs room' !! c'.
Proof using Type.
  unfold register, room_subscribers.
  destruct (subs !! room) as [m|] eqn:Hm.
  - rewrite Hm. destruct (decide (room' = room ∧ c' = c)) as [[-> ->]|Hne].
    + by rewrite lookup_insert_eq; simpl; rewrite lookup_insert_eq.
    + destruct (decide (room' = room)) as [->|Hr].
      * rewrite lookup_insert_eq, Hm. simpl. rewrite lookup_insert_ne; [done|]. intros Heq. apply Hne. by rewrite Heq.
      * by rewrite lookup_insert_ne.
  - rewrite lookup_insert_eq. destruct (decide (room' = room ∧ c' = c)) as [[-> ->]|Hne].
    + by rewrite lookup_insert_eq; simpl; rewrite lookup_insert_eq.
    + destruct (decide (room' = room)) as [->|Hr].
      * rewrite lookup_insert_eq, Hm. simpl. rewrite lookup_insert_ne; [done|]. intros Heq. apply Hne. by rewrite Heq.
      * by rewrite !lookup_insert_ne.
Qed.

Lemma lookup_unregister room c (subs : Registry) room' c' :
  room_subscribers (unregister room c subs) room' !! c'
  = if decide (room' = room ∧ c' = c) then None
    else room_subscribers subs room' !! c'.
Proof using Type.
  unfold unregister, room_subscribers.
  destruct (subs !! room) as [m|] eqn:Hm.
  - destruct (decide (room' = room ∧ c' = c)) as [[-> ->]|Hne].
    + by rewrite lookup_insert_eq; simpl; rewrite lookup_delete_eq.
    + destruct (decide (room' = room)) as [->|Hr].
      * rewrite lookup_insert_eq, Hm. simpl. rewrite lookup_delete_ne; [done|]. intros Heq. apply Hne. by rewrite Heq.
      * by rewrite lookup_insert_ne.
  - destruct (decide (room' = room ∧ c' = c)) as [[-> ->]|Hne]; [|done].
    by rewrite Hm.
Qed.

(** ** The request handlers *)

Lemma quiet_refl s : quiet s s.
Proof.
  repeat split; try done.
  - exists []. by rewrite app_nil_r.
  - exists []. by rewrite app_nil_r.
Qed.

Lemma quiet_trans s1 s2 s3 : quiet s1 s2 → quiet s2 s3 → quiet s1 s3.
Proof.
  intros (A1 & A2 & A3 & A4 & A5 & (t & At & Ht) & (ms & Am & Hm))
         (B1 & B2 & B3 & B4 & B5 & (t' & Bt & Ht') & (ms' & Bm & Hm')).
  repeat split; try congruence.
  - exists (t ++ t'). rewrite Bt, At, <- app_assoc. split; [done|]. by apply Forall_app.
  - exists (ms ++ ms'). rewrite Bm, Am, <- app_assoc. split; [done|]. by apply Forall_app.
Qed.

Lemma quiet_emit e s : silent e → quiet s (emit e s).
Proof.
  intros He. repeat split; try done; simpl.
  - exists [e]. split; [done|]. by constructor.
  - exists []. by rewrite app_nil_r.
Qed.

Lemma quiet_go msg s : produced msg → quiet s (go_notifyClients msg s).
Proof.
  intros Hm. repeat split; try done; simpl.
  - exists []. by rewrite app_nil_r.
  - exists [msg]. split; [done|]. by constructor.
Qed.

Lemma quiet_emit_after e s s' : silent e → quiet s s' → quiet s (emit e s').
Proof. intros He Hq. eapply quiet_trans; [done|]. by apply quiet_emit. Qed.

Lemma quiet_go_after msg s s' : produced msg → quiet s s' → quiet s (go_notifyClients msg s').
Proof. intros Hm Hq. eapply quiet_trans; [done|]. by apply quiet_go. Qed.

Lemma produced_created id message room :
  produced (Message.mk MessageKindMessageCreated
              (AnyMessageCreated (MessageMessageCreated.mk id message)) room).
Proof. left. split; [done|]. by eexists. Qed.

Lemma produced_reaction id count room :
  produced (Message.mk MessageKindMessageRactionIncreased
              (AnyMessageReactionCount (MessageMessageReactionCount.mk id count)) room).
Proof. right. split; [done|]. by eexists. Qed.

Ltac quiet_steps :=
  repeat first
    [ apply quiet_refl
    | apply quiet_emit_after; [exact I|]
    | apply quiet_go_after; [first [apply produced_created | apply produced_reaction]|]
    | assumption ].

Lemma readRoom_quiet q r s : quiet s (readRoom q r s).1.
Proof.
  unfold readRoom. destruct (uuid_Parse (room_id r)); [|simpl; quiet_steps].
  destruct (GetRoom q u) as [room|[|d]]; simpl; quiet_steps.
Qed.

(** Every route but the subscription leaves the registry alone. *)
Lemma ServeHTTP_quiet route q r s :
  route ≠ GetSubscribe → quiet s (ServeHTTP route q r s).
Proof.
  intros Hroute. pose proof (readRoom_quiet q r s) as Hrr.
  destruct route; try done; simpl;
    unfold handleGetRooms, handleCreateRoom, handleGetRoom, handleGetRoomMessages,
      handleCreateRoomMessage, handleGetRoomMessage, handleReactToMessage,
      handleRemoveReactFromMessage, handleMarkMessageAsAnswered, sendJSON;
    try destruct (readRoom q r s) as [s1 [[[room raw] rid]|]]; simpl in *;
    repeat case_match; quiet_steps.
Qed.

(** [handleSubscribe] either aborts before the registry is touched, or
    registers a fresh connection and parks. *)
Lemma handleSubscribe_enter_cases q r s :
  let s' := handleSubscribe_enter q r s in
  quiet s s'
  ∨ (subscribers s' = register (room_id r) (next s) (next s) (subscribers s)
     ∧ parked s' = <[next s := (room_id r, next s)]> (parked s)
     ∧ next s' = Pos.succ (next s)
     ∧ done s' = done s
     ∧ broken s' = broken s
     ∧ spawned s' = spawned s
     ∧ ∃ t, trace s' = trace s ++ t ∧ Forall silent t).
Proof.
  unfold handleSubscribe_enter, readRoom.
  destruct (uuid_Parse (room_id r)) as [id|]; [|left; simpl; quiet_steps].
  destruct (GetRoom q id) as [room|[|d]]; simpl; try (left; solve [quiet_steps]).
  destruct (Upgrade r) as [err|];
    [left; destruct (upgrade_reply err) as [[body status]|]; solve [quiet_steps]|].
  right. simpl. repeat split; try done.
  eexists. split; [done|]. by constructor.
Qed.

Lemma handleSubscribe_exit_lookup c s room' c' :
  room_subscribers (subscribers (handleSubscribe_exit c s)) room' !! c' = None
  ∨ room_subscribers (subscribers (handleSubscribe_exit c s)) room' !! c'
    = room_subscribers (subscribers s) room' !! c'.
Proof.
  unfold handleSubscribe_exit. destruct (parked s !! c) as [[room ctx]|]; [|by right].
  destruct (decide (ctx ∈ done s)); [|by right]. simpl.
  rewrite lookup_unregister. destruct (decide (room' = room ∧ c' = c)); [by left|by right].
Qed.

Lemma handleSubscribe_exit_frame c s :
  next (handleSubscribe_exit c s) = next s
  ∧ trace (handleSubscribe_exit c s) = trace s
  ∧ spawned (handleSubscribe_exit c s) = spawned s.
Proof.
  unfold handleSubscribe_exit. destruct (parked s !! c) as [[room ctx]|]; [|done].
  by destruct (decide (ctx ∈ done s)).
Qed.

(** ** Invariants of the running server *)

Lemma Route_subscribe_or_not (route : Route) :
  route = GetSubscribe ∨ route ≠ GetSubscribe.
Proof. destruct route; (by left) || (by right). Qed.

Lemma registry_inv_same s s' :
  subscribers s' = subscribers s → next s' = next s → registry_inv s → registry_inv s'.
Proof. unfold registry_inv. intros -> ->. done. Qed.

Lemma registry_inv_exec a s : registry_inv s → registry_inv (exec a s).
Proof.
  intros Hinv. destruct a as [route q r|c|i range|ctx|c]; simpl.
  - destruct (Route_subscribe_or_not route) as [->|Hroute].
    + simpl. destruct (handleSubscribe_enter_cases q r s)
        as [(H1 & _ & _ & _ & H5 & _)|(Hsubs & _ & Hnext & _)].
      * by apply (registry_inv_same s).
      * destruct Hinv as [Hlt Hone]. unfold registry_inv, one_room, registered in *.
        rewrite Hsubs, Hnext. split.
        -- intros room c. rewrite lookup_register. case_decide as Hd.
           ++ destruct Hd as [_ ->]. lia.
           ++ intros Hreg. apply Hlt in Hreg. lia.
        -- intros c room1 room2. rewrite !lookup_register.
           repeat case_decide; intros Hr1 Hr2.
           ++ naive_solver.
           ++ apply Hlt in Hr2. naive_solver lia.
           ++ apply Hlt in Hr1. naive_solver lia.
           ++ by eapply Hone.
    + destruct (ServeHTTP_quiet route q r s Hroute) as (H1 & _ & _ & _ & H5 & _).
      by apply (registry_inv_same s).
  - destruct Hinv as [Hlt Hone]. destruct (handleSubscribe_exit_frame c s) as (Hnext & _).
    unfold registry_inv, one_room, registered in *. rewrite Hnext.
    assert (Hsub : ∀ room' c',
      is_Some (room_subscribers (subscribers (handleSubscribe_exit c s)) room' !! c') →
      is_Some (room_subscribers (subscribers s) room' !! c')).
    { intros room' c' H. destruct (handleSubscribe_exit_lookup c s room' c') as [E|E];
        rewrite E in H; [by destruct H|done]. }
    split; [naive_solver|]. intros c' room1 room2 H1 H2. eapply Hone; eauto.
  - destruct (spawned s !! i) as [msg|]; [|done].
    match goal with |- registry_inv (notifyClients _ _ ?s0) =>
      destruct (notifyClients_visited range msg s0) as (H1 & _ & _ & _ & H5 & _);
      apply (registry_inv_same s); [exact H1 | exact H5 | exact Hinv]
    end.
  - by apply (registry_inv_same s).
  - by apply (registry_inv_same s).
Qed.

Lemma registry_inv_run acts : ∀ s, registry_inv s → registry_inv (run acts s).
Proof.
  induction acts as [|a acts IH]; intros s Hs; [done|].
  simpl. apply IH. by apply registry_inv_exec.
Qed.

Lemma registry_inv_NewHandler : registry_inv NewHandler.
Proof.
  split.
  - intros room c [x Hx]. unfold room_subscribers in Hx. simpl in Hx.
    rewrite lookup_empty in Hx. simpl in Hx. by rewrite lookup_empty in Hx.
  - intros c room1 room2 [x Hx]. unfold room_subscribers in Hx. simpl in Hx.
    rewrite lookup_empty in Hx. simpl in Hx. by rewrite lookup_empty in Hx.
Qed.

(** C5. Whatever requests, wake-ups, dispatches and failures the server goes
    through from its start, no handle is registered under two rooms: every
    [handleSubscribe] call registers its own fresh connection under its one
    room and removes it from that same room. *)
Theorem handle_in_at_most_one_room acts :
  one_room (subscribers (run acts NewHandler)).
Proof. apply (registry_inv_run acts NewHandler), registry_inv_NewHandler. Qed.

Lemma failing_cancelled (range : gmap Conn CancelFunc → list (Conn * CancelFunc)) msg s c ctx :
  (∀ m, range m ≡ₚ map_to_list m) →
  room_subscribers (subscribers s) (Message.RoomID msg) !! c = Some ctx →
  c ∈ broken s →
  ctx ∈ done (notifyClients range msg s).
Proof.
  intros Hrange Hc Hbad.
  destruct (notifyClients_spec range msg s (range_perm_empty range Hrange))
    as (_ & _ & _ & _ & _ & _ & ->).
  rewrite cancels_notify_effects, elem_of_union, elem_of_list_to_set. left.
  apply list_elem_of_fmap. exists (c, ctx). split; [done|].
  apply list_elem_of_filter. split; [done|].
  rewrite Hrange. by apply elem_of_map_to_list.
Qed.

(** C3. A dispatch leaves the registry mapping as it found it; the only
    cancellations it invokes are those of subscribers whose write failed.
    Such a subscriber is still registered after the dispatch, and it is its
    own [handleSubscribe] call, waking on the cancelled context, that removes
    it, and only it.  No other move of the server removes a registered
    handle. *)
Theorem dispatch_never_mutates_registry
    (range : gmap Conn CancelFunc → list (Conn * CancelFunc)) msg s :
  (∀ m, range m ≡ₚ map_to_list m) →
  subscribers (notifyClients range msg s) = subscribers s
  ∧ (∀ ctx, ctx ∈ cancels (since s (notifyClients range msg s)) →
       ∃ c, room_subscribers (subscribers s) (Message.RoomID msg) !! c = Some ctx
            ∧ c ∈ broken s)
  ∧ (∀ c ctx,
       room_subscribers (subscribers s) (Message.RoomID msg) !! c = Some ctx →
       c ∈ broken s →
       parked s !! c = Some (Message.RoomID msg, ctx) →
       registered (subscribers (notifyClients range msg s)) (Message.RoomID msg) c
       ∧ ¬ registered (subscribers (handleSubscribe_exit c (notifyClients range msg s)))
             (Message.RoomID msg) c
       ∧ ∀ room' c', ¬ (room' = Message.RoomID msg ∧ c' = c) →
           room_subscribers (subscribers (handleSubscribe_exit c (notifyClients range msg s)))
             room' !! c'
           = room_subscribers (subscribers s) room' !! c')
  ∧ (∀ a room c, (∀ c', a ≠ AWake c') →
       registered (subscribers s) room c →
       registered (subscribers (exec a s)) room c).
Proof.
  intros Hrange.
  destruct (notifyClients_spec range msg s (range_perm_empty range Hrange))
    as (Hsubs & Hparked & _ & _ & _ & Htrace & _).
  split; [done|]. split; [|split].
  - intros ctx. rewrite (since_app _ _ _ Htrace), cancels_notify_effects.
    intros Hin. apply list_elem_of_fmap in Hin as [[c ctx'] [-> Hin]].
    apply list_elem_of_filter in Hin as [Hbad Hin]. rewrite Hrange in Hin.
    apply elem_of_map_to_list in Hin. by exists c.
  - intros c ctx Hc Hbad Hpark.
    pose proof (failing_cancelled range msg s c ctx Hrange Hc Hbad) as Hdone.
    split; [by rewrite Hsubs; exists ctx|].
    unfold handleSubscribe_exit. rewrite Hparked, Hpark, decide_True by done. simpl.
    unfold registered. rewrite Hsubs. split.
    + rewrite lookup_unregister, decide_True by done. by intros [? ?].
    + intros room' c' Hne. by rewrite lookup_unregister, decide_False.
  - intros a room c Hnot Hreg. unfold registered in *.
    destruct a as [route q r|c0|i rg|ctx|c0]; simpl; try done.
    + destruct (Route_subscribe_or_not route) as [->|Hroute].
      * simpl. destruct (handleSubscribe_enter_cases q r s) as [(-> & _)|(-> & _)]; [done|].
        rewrite lookup_register. by case_decide.
      * by destruct (ServeHTTP_quiet route q r s Hroute) as (-> & _).
    + by destruct (Hnot c0).
    + destruct (spawned s !! i) as [m|]; [|done].
      match goal with |- context [notifyClients rg m ?s0] =>
        destruct (notifyClients_visited rg m s0) as (-> & _) end.
      done.
Qed.

Lemma wire_ok_silent t : Forall silent t → Forall wire_ok t.
Proof. intros H. eapply Forall_impl; [exact H|]. by intros []. Qed.

Lemma wire_ok_notify_effects bad msg l :
  produced msg → Forall wire_ok (l ≫= notify_one_effects bad msg).
Proof.
  intros Hm. induction l as [|[c ctx] l IH]; csimpl; [done|].
  apply Forall_app. split; [|done].
  unfold notify_one_effects. simpl. destruct (decide (c ∈ bad));
    repeat constructor; by exists msg.
Qed.

Lemma wire_inv_exec a s :
  Forall produced (spawned s) ∧ Forall wire_ok (trace s) →
  Forall produced (spawned (exec a s)) ∧ Forall wire_ok (trace (exec a s)).
Proof.
  intros [Hsp Htr]. destruct a as [route q r|c|i range|ctx|c]; simpl; try done.
  - destruct (Route_subscribe_or_not route) as [->|Hroute].
    + simpl. destruct (handleSubscribe_enter_cases q r s)
        as [(_ & _ & _ & _ & _ & (t & -> & Ht) & (ms & -> & Hms))
           |(_ & _ & _ & _ & _ & -> & (t & -> & Ht))].
      * split; apply Forall_app; auto using wire_ok_silent.
      * split; [done|]. apply Forall_app; auto using wire_ok_silent.
    + destruct (ServeHTTP_quiet route q r s Hroute)
        as (_ & _ & _ & _ & _ & (t & -> & Ht) & (ms & -> & Hms)).
      split; apply Forall_app; auto using wire_ok_silent.
  - destruct (handleSubscribe_exit_frame c s) as (_ & -> & ->). done.
  - destruct (spawned s !! i) as [msg|] eqn:Hi; [|done].
    assert (Hmsg : produced msg).
    { rewrite Forall_forall in Hsp. apply Hsp. by eapply list_elem_of_lookup_2. }
    match goal with |- context [notifyClients range msg ?s0] =>
      destruct (notifyClients_visited range msg s0) as (_ & _ & _ & -> & _ & -> & _) end.
    simpl. split.
    + apply Forall_app. split; [by apply Forall_take|by apply Forall_drop].
    + apply Forall_app. split; [done|]. by apply wire_ok_notify_effects.
Qed.

Lemma wire_inv_run acts : ∀ s,
  Forall produced (spawned s) ∧ Forall wire_ok (trace s) →
  Forall produced (spawned (run acts s)) ∧ Forall wire_ok (trace (run acts s)).
Proof.
  induction acts as [|a acts IH]; intros s Hs; [done|].
  simpl. apply IH. by apply wire_inv_exec.
Qed.

(** C7. Every payload the server writes to a subscriber is the object
    [{kind, value}], with a kind among the four event kinds; a
    [message_created] carries [{id, message}], a
    [message_reaction_increased] carries [{id, count}]; and the payload is
    the same whatever the room identifier of the event. *)
Theorem delivered_events_wire_shape acts c payload ok :
  EWriteJSON c payload ok ∈ trace (run acts NewHandler) →
  ∃ k v,
    payload = JObj [("kind", JStr k); ("value", v)]
    ∧ k ∈ ["message_created"; "message_reaction_increased";
           "message_reaction_decreased"; "message_answered"]
    ∧ (k = "message_created" →
         ∃ id message, v = JObj [("id", JStr id); ("message", JStr message)])
    ∧ (k = "message_reaction_increased" →
         ∃ id count, v = JObj [("id", JStr id); ("count", JInt count)])
    ∧ ∃ m, payload = Message.marshal m
           ∧ ∀ room, Message.marshal (Message.mk (Message.Kind m) (Message.Value m) room)
                     = payload.
Proof.
  intros Hin.
  destruct (wire_inv_run acts NewHandler) as [_ Htr]; [by split; constructor|].
  rewrite Forall_forall in Htr. apply Htr in Hin. simpl in Hin.
  destruct Hin as (m & Hm & ->). destruct m as [k v room].
  unfold produced in Hm. simpl in Hm.
  exists k, (marshal_any v). split; [done|].
  destruct Hm as [[-> [[id message] ->]]|[-> [[id count] ->]]]; simpl.
  - split; [set_solver|]. split; [by exists id, message|]. split; [done|].
    by eexists (Message.mk _ _ room).
  - split; [set_solver|]. split; [done|]. split; [by exists id, count|].
    by eexists (Message.mk _ _ room).
Qed.

(** ** Resolving the room, accepting a subscriber, listing *)

Lemma since_emit e s : since s (emit e s) = [e].
Proof. by apply since_app. Qed.

Lemma since_emit2 e1 e2 s : since s (emit e2 (emit e1 s)) = [e1; e2].
Proof. apply since_app. simpl. by rewrite <- app_assoc. Qed.

(** C9. [readRoom] ends in exactly one of four ways, decided by the parse
    of the identifier and the answer of the store: a malformed identifier
    (400, invalid room id); no such room (400, room not found); any other
    fault of the store, logged with its detail while the caller only
    receives 500, something went wrong; or the room, with nothing written.
    In the first three the handlers that resolve a room stop right there. *)
Theorem readRoom_outcomes q r s :
  let s' := (readRoom q r s).1 in
  let res := (readRoom q r s).2 in
  let stops := Forall (λ route, ServeHTTP route q r s = s') room_routes in
  (uuid_Parse (room_id r) = None
   ∧ res = None
   ∧ since s s' = [EHttpError "invalid room id" 400]
   ∧ stops)
  ∨ (∃ id, uuid_Parse (room_id r) = Some id ∧ GetRoom q id = Err ErrNoRows
     ∧ res = None
     ∧ since s s' = [EHttpError "room not found" 400]
     ∧ stops)
  ∨ (∃ id detail, uuid_Parse (room_id r) = Some id ∧ GetRoom q id = Err (ErrOther detail)
     ∧ res = None
     ∧ since s s' = [ESlog LevelError "failed to get room" detail;
                     EHttpError "something went wrong" 500]
     ∧ List.filter http_visible (since s s') = [EHttpError "something went wrong" 500]
     ∧ stops)
  ∨ (∃ id room, uuid_Parse (room_id r) = Some id ∧ GetRoom q id = Ok room
     ∧ res = Some (room, room_id r, id)
     ∧ s' = s).
Proof.
  assert (Hstops : (readRoom q r s).2 = None →
            Forall (λ route, ServeHTTP route q r s = (readRoom q r s).1) room_routes).
  { intros Hnone. unfold room_routes. repeat constructor; simpl;
      unfold handleSubscribe_enter, handleGetRoom, handleGetRoomMessages,
        handleCreateRoomMessage, handleGetRoomMessage, handleReactToMessage;
      destruct (readRoom q r s) as [s1 [x|]]; simpl in *; done. }
  revert Hstops. unfold readRoom.
  destruct (uuid_Parse (room_id r)) as [id|]; simpl.
  - destruct (GetRoom q id) as [room|[|detail]] eqn:Hget; simpl; intros Hstops.
    + right; right; right. exists id, room. repeat split; done.
    + right; left. exists id. rewrite since_emit.
      repeat split; try done; by apply Hstops.
    + right; right; left. exists id, detail. rewrite since_emit2.
      repeat split; try done; by apply Hstops.
  - intros Hstops. left. rewrite since_emit.
    repeat split; try done; by apply Hstops.
Qed.

(** C8. When the accept of a subscriber fails, because the identifier does
    not parse, the store does not return the room, or the upgrade errs,
    [handleSubscribe] returns with the registry and the set of parked calls
    as they were, and its last word to the caller is its own HTTP error.
    Nothing else was answered before it, except, on a failed upgrade, what
    the upgrader answered itself. *)
Theorem failed_accept_leaves_registry q r s :
  uuid_Parse (room_id r) = None
  ∨ (∃ id e, uuid_Parse (room_id r) = Some id ∧ GetRoom q id = Err e)
  ∨ is_Some (Upgrade r) →
  subscribers (handleSubscribe_enter q r s) = subscribers s
  ∧ parked (handleSubscribe_enter q r s) = parked s
  ∧ ∃ before body status,
      List.filter http_visible (since s (handleSubscribe_enter q r s))
      = before ++ [EHttpError body status]
      ∧ (400 ≤ status)%nat
      ∧ (((readRoom q r s).2 = None ∧ before = [])
         ∨ (∃ err, Upgrade r = Some err
                   ∧ before = Upgrade_reply err
                   ∧ body = "failed to upgrade to websocket connection"
                   ∧ status = 400%nat)).
Proof.
  intros Hfail. unfold handleSubscribe_enter, readRoom.
  destruct (uuid_Parse (room_id r)) as [id|] eqn:Hparse; simpl.
  - destruct (GetRoom q id) as [room|[|detail]] eqn:Hget; simpl.
    + destruct (Upgrade r) as [err|] eqn:Hup.
      * destruct (upgrade_reply err) as [[lbody lstatus]|] eqn:Hreply; simpl;
          (split; [done|]); (split; [done|]);
          unfold since; simpl; rewrite <- ?app_assoc, drop_app_length; simpl;
          exists (Upgrade_reply err), MsgFailedToUpgradeConnection, StatusBadRequest;
          unfold Upgrade_reply; rewrite Hreply; (split; [done|]);
          (split; [unfold StatusBadRequest; lia|]); right; exists err;
          by rewrite Hreply.
      * destruct Hfail as [?|[(id' & e & ? & ?)|[? ?]]]; congruence.
    + rewrite since_emit. simpl. repeat split. exists [], MsgRoomNotFound, StatusBadRequest.
      split; [done|]. split; [unfold StatusBadRequest; lia|]. by left.
    + rewrite since_emit2. simpl. repeat split.
      exists [], MsgSomethingWentWrong, StatusInternalServerError.
      split; [done|]. split; [unfold StatusInternalServerError; lia|]. by left.
  - rewrite since_emit. simpl. repeat split. exists [], MsgInvalidRoomID, StatusBadRequest.
    split; [done|]. split; [unfold StatusBadRequest; lia|]. by left.
Qed.

(** C10. When the store answers a listing with a nil slice, the room
    listing and the message listing both answer with the empty array, whose
    text is the two brackets, and not with null. *)
Theorem nil_list_encodes_as_empty_array q q' r s id room :
  GetRooms q = Ok None →
  uuid_Parse (room_id r) = Some id →
  GetRoom q' id = Ok room →
  GetRoomMessages q' id = Ok None →
  since s (handleGetRooms q r s) = [ESendJSON (JArr [])]
  ∧ since s (handleGetRoomMessages q' r s) = [ESendJSON (JArr [])]
  ∧ JArr [] ≠ JNull
  ∧ ∀ escape, render escape (JArr []) = "[]".
Proof.
  intros Hrooms Hparse Hroom Hmsgs.
  unfold handleGetRooms, handleGetRoomMessages, readRoom, sendJSON.
  rewrite Hrooms, Hparse, Hroom. simpl. rewrite Hmsgs. simpl.
  rewrite !since_emit. done.
Qed.

(** ** More on the registry *)

Lemma room_subscribers_register room c ctx (subs : Registry) :
  room_subscribers (register room c ctx subs) room
  = <[c := ctx]> (room_subscribers subs room).
Proof.
  apply map_eq. intros c'. rewrite lookup_register.
  destruct (decide (c' = c)) as [->|Hne].
  - by rewrite decide_True, lookup_insert_eq.
  - rewrite decide_False by naive_solver. by rewrite lookup_insert_ne.
Qed.

(** X1. Registering a handle and then removing it gives back every lookup
    of a registry that did not hold the handle, but not the registry itself:
    the room keeps a set, empty if the room had none before. *)
Theorem unregister_after_register room c ctx (subs : Registry) :
  room_subscribers subs room !! c = None →
  (∀ room' c', room_subscribers (unregister room c (register room c ctx subs)) room' !! c'
               = room_subscribers subs room' !! c')
  ∧ unregister room c (register room c ctx subs)
    = <[room := room_subscribers subs room]> subs.
Proof.
  intros Hc. split.
  - intros room' c'. rewrite lookup_unregister, lookup_register.
    case_decide as Hd; [|done]. by destruct Hd as [-> ->].
  - unfold room_subscribers in *. unfold unregister, register.
    destruct (subs !! room) as [m|] eqn:Hm; simpl in *.
    + rewrite Hm, lookup_insert_eq, insert_insert_eq. by rewrite delete_insert_id.
    + rewrite !lookup_insert_eq, !insert_insert_eq. by rewrite delete_insert_id.
Qed.

(** X2. Two removals commute: the order in which two subscribers leave does
    not show in the registry. *)
Theorem unregister_commute room1 c1 room2 c2 (subs : Registry) :
  unregister room1 c1 (unregister room2 c2 subs)
  = unregister room2 c2 (unregister room1 c1 subs).
Proof.
  unfold unregister. destruct (decide (room1 = room2)) as [->|Hne].
  - destruct (subs !! room2) as [m|] eqn:Hm; simpl.
    + by rewrite !lookup_insert_eq, !insert_insert_eq, delete_delete.
    + by rewrite Hm.
  - destruct (subs !! room1) as [m1|] eqn:H1; destruct (subs !! room2) as [m2|] eqn:H2;
      simpl; rewrite ?lookup_insert_ne, ?H1, ?H2 by done; simpl;
      rewrite ?lookup_insert_ne, ?H1, ?H2 by done; try done.
    by apply insert_insert_ne.
Qed.

(** ** More on [handleSubscribe] *)

Lemma handleSubscribe_enter_success q r s id room :
  uuid_Parse (room_id r) = Some id →
  GetRoom q id = Ok room →
  Upgrade r = None →
  handleSubscribe_enter q r s
  = mkSys (register (room_id r) (next s) (next s) (subscribers s))
          (<[next s := (room_id r, next s)]> (parked s))
          (done s) (broken s) (spawned s) (Pos.succ (next s))
          (trace s ++ [ESlog LevelInfo MsgNewClientConnected (room_id r)]).
Proof.
  intros Hparse Hroom Hup. unfold handleSubscribe_enter, readRoom.
  by rewrite Hparse, Hroom, Hup.
Qed.

(** X3. When the room resolves and the upgrade succeeds, [handleSubscribe]
    registers the new connection under the requested room with its own
    cancellation, parks, leaves every other entry of the registry alone,
    logs the arrival and answers nothing over HTTP. *)
Theorem accepted_subscriber_is_registered q r s id room :
  uuid_Parse (room_id r) = Some id →
  GetRoom q id = Ok room →
  Upgrade r = None →
  room_subscribers (subscribers (handleSubscribe_enter q r s)) (room_id r) !! next s
  = Some (next s)
  ∧ parked (handleSubscribe_enter q r s) !! next s = Some (room_id r, next s)
  ∧ (∀ room' c', ¬ (room' = room_id r ∧ c' = next s) →
       room_subscribers (subscribers (handleSubscribe_enter q r s)) room' !! c'
       = room_subscribers (subscribers s) room' !! c')
  ∧ since s (handleSubscribe_enter q r s)
    = [ESlog LevelInfo "new client connected" (room_id r)]
  ∧ List.filter http_visible (since s (handleSubscribe_enter q r s)) = [].
Proof.
  intros Hparse Hroom Hup.
  rewrite (handleSubscribe_enter_success q r s id room Hparse Hroom Hup).
  assert (Hsince : ∀ subs pk dn bk sp nx,
            since s (mkSys subs pk dn bk sp nx
                       (trace s ++ [ESlog LevelInfo MsgNewClientConnected (room_id r)]))
            = [ESlog LevelInfo MsgNewClientConnected (room_id r)]).
  { intros. by apply since_app. }
  rewrite Hsince. simpl. split; [|split; [|split]].
  - by rewrite lookup_register, decide_True.
  - by rewrite lookup_insert_eq.
  - intros room' c' Hne. by rewrite lookup_register, decide_False.
  - done.
Qed.

Lemma run_app acts1 acts2 s : run (acts1 ++ acts2) s = run acts2 (run acts1 s).
Proof. apply foldl_app. Qed.

Lemma subscriptions_grow q r id room n : ∀ s,
  uuid_Parse (room_id r) = Some id →
  GetRoom q id = Ok room →
  Upgrade r = None →
  registry_inv s →
  size (room_subscribers
          (subscribers (run (replicate n (AServe GetSubscribe q r)) s)) (room_id r))
  = n + size (room_subscribers (subscribers s) (room_id r)).
Proof.
  induction n as [|n IH]; intros s Hparse Hroom Hup Hinv; [done|].
  simpl. rewrite IH by (done || by apply (registry_inv_exec (AServe GetSubscribe q r))).
  simpl. rewrite (handleSubscribe_enter_success q r s id room Hparse Hroom Hup). simpl.
  rewrite room_subscribers_register, map_size_insert_None; [lia|].
  destruct Hinv as [Hlt _]. apply eq_None_not_Some. intros Hsome.
  apply Hlt in Hsome. lia.
Qed.

(** X4. No registration is lost: after n accepted subscriptions to a room
    on a fresh server, the room has exactly n subscribers. *)
Theorem subscriptions_are_counted q r id room n :
  uuid_Parse (room_id r) = Some id →
  GetRoom q id = Ok room →
  Upgrade r = None →
  size (room_subscribers
          (subscribers (run (replicate n (AServe GetSubscribe q r)) NewHandler))
          (room_id r))
  = n.
Proof.
  intros Hparse Hroom Hup.
  rewrite (subscriptions_grow q r id room n NewHandler Hparse Hroom Hup
             registry_inv_NewHandler).
  unfold room_subscribers. simpl. rewrite lookup_empty. simpl.
  rewrite map_size_empty. lia.
Qed.

(** ** The registry and the parked calls *)

Lemma lifecycle_inv_same s s' :
  subscribers s' = subscribers s → parked s' = parked s → next s' = next s →
  lifecycle_inv s → lifecycle_inv s'.
Proof. unfold lifecycle_inv. intros -> -> ->. done. Qed.

Lemma lifecycle_inv_enter q r s : lifecycle_inv s → lifecycle_inv (handleSubscribe_enter q r s).
Proof.
  intros Hinv.
  destruct (handleSubscribe_enter_cases q r s)
    as [(H1 & H2 & _ & _ & H5 & _)|(Hsubs & Hpark & Hnext & _)].
  { by apply (lifecycle_inv_same s). }
  destruct Hinv as [Hiff Hlt]. unfold lifecycle_inv. rewrite Hsubs, Hpark, Hnext. split.
  - intros room c ctx. rewrite lookup_register.
    destruct (decide (c = next s)) as [->|Hc].
    + rewrite lookup_insert_eq. case_decide as Hd.
      * destruct Hd as [-> _]. naive_solver.
      * split.
        -- intros Hreg. apply Hiff, Hlt in Hreg. lia.
        -- intros [= <- <-]. naive_solver.
    + rewrite decide_False by naive_solver. rewrite lookup_insert_ne by done. apply Hiff.
  - intros c room ctx. destruct (decide (c = next s)) as [->|Hc].
    + rewrite lookup_insert_eq. intros [= <- <-]. split; [lia|done].
    + rewrite lookup_insert_ne by done. intros Hp. apply Hlt in Hp. split; [lia|tauto].
Qed.

Lemma lifecycle_inv_exit c s : lifecycle_inv s → lifecycle_inv (handleSubscribe_exit c s).
Proof.
  intros Hinv. unfold handleSubscribe_exit.
  destruct (parked s !! c) as [[room0 ctx0]|] eqn:Hpc; [|done].
  destruct (decide (ctx0 ∈ done s)); [|done].
  destruct Hinv as [Hiff Hlt]. unfold lifecycle_inv. simpl. split.
  - intros room c' ctx. rewrite lookup_unregister.
    destruct (decide (c' = c)) as [->|Hc].
    + rewrite lookup_delete_eq. case_decide as Hd; [done|]. split; [|done].
      intros Hreg. apply Hiff in Hreg. rewrite Hpc in Hreg. naive_solver.
    + rewrite decide_False by naive_solver. rewrite lookup_delete_ne by done. apply Hiff.
  - intros c' room ctx. destruct (decide (c' = c)) as [->|Hc].
    + by rewrite lookup_delete_eq.
    + rewrite lookup_delete_ne by done. apply Hlt.
Qed.

Lemma lifecycle_inv_exec a s : lifecycle_inv s → lifecycle_inv (exec a s).
Proof.
  intros Hinv. destruct a as [route q r|c|i range|ctx|c]; simpl.
  - destruct (Route_subscribe_or_not route) as [->|Hroute].
    + by apply lifecycle_inv_enter.
    + destruct (ServeHTTP_quiet route q r s Hroute) as (H1 & H2 & _ & _ & H5 & _).
      by apply (lifecycle_inv_same s).
  - by apply lifecycle_inv_exit.
  - destruct (spawned s !! i) as [msg|]; [|done].
    match goal with |- lifecycle_inv (notifyClients _ _ ?s0) =>
      destruct (notifyClients_visited range msg s0) as (H1 & H2 & _ & _ & H5 & _);
      apply (lifecycle_inv_same s); [exact H1 | exact H2 | exact H5 | exact Hinv]
    end.
  - by apply (lifecycle_inv_same s).
  - by apply (lifecycle_inv_same s).
Qed.

Lemma lifecycle_inv_run acts : ∀ s, lifecycle_inv s → lifecycle_inv (run acts s).
Proof.
  induction acts as [|a acts IH]; intros s Hs; [done|].
  simpl. apply IH. by apply lifecycle_inv_exec.
Qed.

Lemma lifecycle_inv_NewHandler : lifecycle_inv NewHandler.
Proof.
  split.
  - intros room c ctx. unfold room_subscribers. simpl.
    rewrite !lookup_empty. simpl. by rewrite lookup_empty.
  - intros c room ctx. simpl. by rewrite lookup_empty.
Qed.

(** X5. At every moment of every run, the registry holds exactly the
    [handleSubscribe] calls that are parked: a handle is registered under a
    room if and only if its call is parked for that room, and the
    cancellation stored with it is the one of its own context.  A call that
    has returned is in no room. *)
Theorem registry_holds_the_parked_calls acts room c ctx :
  (room_subscribers (subscribers (run acts NewHandler)) room !! c = Some ctx
   ↔ parked (run acts NewHandler) !! c = Some (room, ctx))
  ∧ (parked (run acts NewHandler) !! c = None →
     ∀ room', room_subscribers (subscribers (run acts NewHandler)) room' !! c = None).
Proof.
  destruct (lifecycle_inv_run acts NewHandler lifecycle_inv_NewHandler) as [Hiff _].
  split; [apply Hiff|]. intros Hnone room'. apply eq_None_not_Some. intros [x Hx].
  apply Hiff in Hx. congruence.
Qed.

Lemma sends_iff_registered (range : gmap Conn CancelFunc → list (Conn * CancelFunc)) msg s c :
  (∀ m, range m ≡ₚ map_to_list m) →
  c ∈ sends (since s (notifyClients range msg s))
  ↔ registered (subscribers s) (Message.RoomID msg) c.
Proof.
  intros Hrange.
  destruct (notifyClients_spec range msg s (range_perm_empty range Hrange))
    as (_ & _ & _ & _ & _ & Htrace & _).
  rewrite (since_app _ _ _ Htrace), sends_notify_effects, Hrange, list_elem_of_fmap.
  unfold registered. split.
  - intros [[c' ctx] [-> Hin]]. apply elem_of_map_to_list in Hin. by exists ctx.
  - intros [ctx Hc]. exists (c, ctx). split; [done|]. by apply elem_of_map_to_list.
Qed.

(** X6. In every run, a dispatch writes to a connection exactly when that
    connection's [handleSubscribe] call is parked for the room of the event:
    subscribers of other rooms, and connections that never subscribed,
    receive nothing. *)
Theorem dispatch_reaches_only_the_room
    (range : gmap Conn CancelFunc → list (Conn * CancelFunc)) acts msg c :
  (∀ m, range m ≡ₚ map_to_list m) →
  c ∈ sends (since (run acts NewHandler) (notifyClients range msg (run acts NewHandler)))
  ↔ ∃ ctx, parked (run acts NewHandler) !! c = Some (Message.RoomID msg, ctx).
Proof.
  intros Hrange. rewrite (sends_iff_registered range msg _ c Hrange).
  destruct (lifecycle_inv_run acts NewHandler lifecycle_inv_NewHandler) as [Hiff _].
  unfold registered. split.
  - intros [ctx Hc]. exists ctx. by apply Hiff.
  - intros [ctx Hc]. exists ctx. by apply Hiff.
Qed.

Lemma closed_stays_closed a s c :
  parked s !! c = None ∧ (c < next s)%positive →
  parked (exec a s) !! c = None ∧ (c < next (exec a s))%positive.
Proof.
  intros [Hnone Hlt]. destruct a as [route q r|c'|i range|ctx|c']; simpl; try done.
  - destruct (Route_subscribe_or_not route) as [->|Hroute].
    + simpl. destruct (handleSubscribe_enter_cases q r s)
        as [(_ & -> & _ & _ & -> & _)|(_ & -> & -> & _)]; [done|].
      rewrite lookup_insert_ne by lia. split; [done|lia].
    + by destruct (ServeHTTP_quiet route q r s Hroute) as (_ & -> & _ & _ & -> & _).
  - destruct (handleSubscribe_exit_frame c' s) as (-> & _). split; [|done].
    unfold handleSubscribe_exit. destruct (parked s !! c') as [[room ctx]|]; [|done].
    destruct (decide (ctx ∈ done s)); [|done]. simpl.
    rewrite lookup_delete. by case_decide.
  - destruct (spawned s !! i) as [msg|]; [|done].
    match goal with |- context [notifyClients range msg ?s0] =>
      destruct (notifyClients_visited range msg s0) as (_ & -> & _ & _ & -> & _) end.
    done.
Qed.

Lemma closed_stays_closed_run acts c : ∀ s,
  parked s !! c = None ∧ (c < next s)%positive →
  parked (run acts s) !! c = None ∧ (c < next (run acts s))%positive.
Proof.
  induction acts as [|a acts IH]; intros s Hs; [done|].
  simpl. apply IH. by apply closed_stays_closed.
Qed.

(** X7. Once the [handleSubscribe] call of a connection has woken on its
    done context and returned, the connection is never registered again,
    and no later dispatch, for any room and after any further activity of
    the server, writes to it. *)
Theorem departed_handle_is_not_written
    (range : gmap Conn CancelFunc → list (Conn * CancelFunc)) acts acts' msg c room ctx :
  (∀ m, range m ≡ₚ map_to_list m) →
  parked (run acts NewHandler) !! c = Some (room, ctx) →
  ctx ∈ done (run acts NewHandler) →
  (∀ room', room_subscribers
              (subscribers (run (acts ++ AWake c :: acts') NewHandler)) room' !! c = None)
  ∧ c ∉ sends (since (run (acts ++ AWake c :: acts') NewHandler)
                 (notifyClients range msg (run (acts ++ AWake c :: acts') NewHandler))).
Proof.
  intros Hrange Hpark Hdone.
  pose proof (lifecycle_inv_run acts NewHandler lifecycle_inv_NewHandler) as [_ Hlt].
  destruct (Hlt c room ctx Hpark) as [Hc _].
  assert (Hclosed : parked (run (acts ++ AWake c :: acts') NewHandler) !! c = None).
  { rewrite run_app. simpl. apply closed_stays_closed_run.
    destruct (handleSubscribe_exit_frame c (run acts NewHandler)) as (-> & _).
    split; [|done]. unfold handleSubscribe_exit.
    rewrite Hpark, decide_True by done. simpl. by rewrite lookup_delete_eq. }
  pose proof (lifecycle_inv_run (acts ++ AWake c :: acts') NewHandler
                lifecycle_inv_NewHandler) as [Hiff _].
  assert (Hgone : ∀ room', room_subscribers
                    (subscribers (run (acts ++ AWake c :: acts') NewHandler)) room' !! c
                  = None).
  { intros room'. apply eq_None_not_Some. intros [x Hx]. apply Hiff in Hx. congruence. }
  split; [done|].
  rewrite (sends_iff_registered range msg _ c Hrange). unfold registered.
  rewrite Hgone. by intros [? ?].
Qed.

(** X8. In every run, a subscriber whose write fails during a dispatch has
    its context cancelled by that dispatch, and its [handleSubscribe] call,
    once it wakes, leaves it neither registered nor parked. *)
Theorem failed_subscriber_leaves_on_wake
    (range : gmap Conn CancelFunc → list (Conn * CancelFunc)) acts msg c ctx :
  (∀ m, range m ≡ₚ map_to_list m) →
  room_subscribers (subscribers (run acts NewHandler)) (Message.RoomID msg) !! c = Some ctx →
  c ∈ broken (run acts NewHandler) →
  ctx ∈ done (notifyClients range msg (run acts NewHandler))
  ∧ (∀ room', room_subscribers
       (subscribers (handleSubscribe_exit c (notifyClients range msg (run acts NewHandler))))
       room' !! c = None)
  ∧ parked (handleSubscribe_exit c (notifyClients range msg (run acts NewHandler))) !! c
    = None.
Proof.
  intros Hrange Hc Hbad.
  pose proof (lifecycle_inv_run acts NewHandler lifecycle_inv_NewHandler) as Hinv.
  pose proof (failing_cancelled range msg _ c ctx Hrange Hc Hbad) as Hdone.
  destruct (notifyClients_visited range msg (run acts NewHandler))
    as (Hsubs & Hparked & _ & _ & Hnext & _).
  assert (Hinv' : lifecycle_inv (notifyClients range msg (run acts NewHandler))).
  { by apply (lifecycle_inv_same (run acts NewHandler)). }
  assert (Hpark : parked (notifyClients range msg (run acts NewHandler)) !! c
                  = Some (Message.RoomID msg, ctx)).
  { rewrite Hparked. by apply Hinv. }
  split; [done|].
  pose proof (lifecycle_inv_exit c _ Hinv') as [Hiff _].
  assert (Hgone : parked (handleSubscribe_exit c
                    (notifyClients range msg (run acts NewHandler))) !! c = None).
  { unfold handleSubscribe_exit. rewrite Hpark, decide_True by done. simpl.
    by rewrite lookup_delete_eq. }
  split; [|done]. intros room'. apply eq_None_not_Some. intros [x Hx].
  apply Hiff in Hx. congruence.
Qed.

(** ** What a dispatch writes *)

Lemma notify_effects_healthy bad msg (l : list (Conn * CancelFunc)) :
  (∀ entry, entry ∈ l → entry.1 ∉ bad) →
  l ≫= notify_one_effects bad msg
  = (λ entry, EWriteJSON entry.1 (Message.marshal msg) true) <$> l.
Proof.
  induction l as [|entry l IH]; intros Hok; [done|]. csimpl.
  rewrite IH by (intros e He; apply Hok; by right).
  unfold notify_one_effects. rewrite decide_False; [done|]. apply Hok. by left.
Qed.

(** X9. Every write of a dispatch carries the encoding of the dispatched
    event and succeeds exactly when the connection is not broken.  When no
    subscriber of the room is broken, the dispatch consists of the N writes
    and nothing else: no cancellation, no context done, no log line. *)
Theorem dispatch_writes_the_event
    (range : gmap Conn CancelFunc → list (Conn * CancelFunc)) msg s :
  (∀ m, range m ≡ₚ map_to_list m) →
  (∀ c payload ok,
     EWriteJSON c payload ok ∈ since s (notifyClients range msg s) →
     payload = Message.marshal msg ∧ (ok = true ↔ c ∉ broken s))
  ∧ ((∀ c, registered (subscribers s) (Message.RoomID msg) c → c ∉ broken s) →
     cancels (since s (notifyClients range msg s)) = []
     ∧ done (notifyClients range msg s) = done s
     ∧ length (since s (notifyClients range msg s))
       = size (room_subscribers (subscribers s) (Message.RoomID msg))).
Proof.
  intros Hrange.
  destruct (notifyClients_spec range msg s (range_perm_empty range Hrange))
    as (_ & _ & _ & _ & _ & Htrace & Hdone).
  rewrite (since_app _ _ _ Htrace). split.
  - intros c payload ok Hin. apply list_elem_of_bind in Hin as ([c' ctx] & Hin & _).
    unfold notify_one_effects in Hin. simpl in Hin.
    destruct (decide (c' ∈ broken s)) as [Hbad|Hbad].
    + apply elem_of_cons in Hin as [[= -> -> ->]|Hin]; [split; [done|]; split; done|].
      apply elem_of_cons in Hin as [[=]|Hin].
      apply elem_of_cons in Hin as [[=]|Hin]. by apply elem_of_nil in Hin.
    + apply elem_of_cons in Hin as [[= -> -> ->]|Hin]; [done|]. by apply elem_of_nil in Hin.
  - intros Hok.
    assert (Hall : ∀ entry, entry ∈ range (room_subscribers (subscribers s)
                                              (Message.RoomID msg)) →
                            entry.1 ∉ broken s).
    { intros [c ctx] Hin. rewrite Hrange in Hin. apply elem_of_map_to_list in Hin.
      apply Hok. by exists ctx. }
    rewrite Hdone, (notify_effects_healthy _ _ _ Hall).
    assert (Hc : ∀ l : list (Conn * CancelFunc),
              cancels ((λ entry, EWriteJSON entry.1 (Message.marshal msg) true) <$> l) = []).
    { intros l. by induction l. }
    rewrite Hc, length_fmap, Hrange, length_map_to_list. split; [done|]. split; [|done].
    simpl. by rewrite (left_id_L ∅ (∪)).
Qed.

(** ** What the request handlers answer *)

Lemma silent_no_sends t : Forall silent t → sends t = [] ∧ cancels t = [].
Proof.
  induction 1 as [|e t He _ [IH1 IH2]]; [done|].
  destruct e; try done; simpl; by rewrite ?IH1, ?IH2.
Qed.

(** X10. No request handler writes to a websocket connection or invokes a
    cancellation, whatever the route and the outcome; the contexts done and
    the broken connections stay as they were, and every route but the
    subscription leaves the registry and the parked calls alone. *)
Theorem handlers_never_touch_connections route q r s :
  sends (since s (ServeHTTP route q r s)) = []
  ∧ cancels (since s (ServeHTTP route q r s)) = []
  ∧ done (ServeHTTP route q r s) = done s
  ∧ broken (ServeHTTP route q r s) = broken s
  ∧ (route = GetSubscribe
     ∨ subscribers (ServeHTTP route q r s) = subscribers s
       ∧ parked (ServeHTTP route q r s) = parked s).
Proof.
  destruct (Route_subscribe_or_not route) as [->|Hroute].
  - simpl. destruct (handleSubscribe_enter_cases q r s)
      as [(_ & _ & Hd & Hb & _ & (t & Ht & Hs) & _)|(_ & _ & _ & Hd & Hb & _ & (t & Ht & Hs))];
      rewrite (since_app _ _ _ Ht); destruct (silent_no_sends t Hs) as [-> ->];
      repeat split; auto.
  - destruct (ServeHTTP_quiet route q r s Hroute)
      as (H1 & H2 & Hd & Hb & _ & (t & Ht & Hs) & _).
    rewrite (since_app _ _ _ Ht). destruct (silent_no_sends t Hs) as [-> ->].
    repeat split; auto.
Qed.

Ltac since_compute :=
  unfold since; simpl; rewrite <- ?app_assoc; rewrite ?drop_app_length; simpl.

Ltac handler_cases :=
  unfold handleSubscribe_enter, handleGetRooms, handleCreateRoom, handleGetRoom,
    handleGetRoomMessages, handleCreateRoomMessage, handleGetRoomMessage,
    handleReactToMessage, handleRemoveReactFromMessage, handleMarkMessageAsAnswered,
    sendJSON, readRoom;
  repeat case_match; simplify_eq.

(** X11. Every request to a listing, reading, creating or reacting route is
    answered exactly once, by an error or by a JSON body; to a subscription
    request the handler answers at most once, on top of what the upgrader
    answered itself when it failed; the two unimplemented routes do nothing
    at all. *)
Theorem one_response_per_request route q r s :
  match route with
  | GetSubscribe =>
      (length (List.filter http_visible (since s (ServeHTTP route q r s)))
       ≤ 1 + length (upgrader_reply r))%nat
  | DeleteReact | PatchAnswer => ServeHTTP route q r s = s
  | _ => length (List.filter http_visible (since s (ServeHTTP route q r s))) = 1%nat
  end.
Proof.
  destruct route; simpl; try done; unfold upgrader_reply, Upgrade_reply;
    handler_cases; since_compute; rewrite ?drop_all; simpl; lia.
Qed.


(** ** The events the handlers spawn *)

(** X13. Posting a message spawns a dispatch only after the store accepted
    the message: then exactly one, of kind [message_created], for the room of
    the URL, carrying the id the caller is answered with and the posted
    text.  In every other case nothing is spawned and the caller gets one
    error. *)
Theorem message_event_only_after_insert q r s :
  (∃ id room message messageID,
     uuid_Parse (room_id r) = Some id ∧ GetRoom q id = Ok room
     ∧ Body r = Some message ∧ InsertMessage q id message = Ok messageID
     ∧ spawned (handleCreateRoomMessage q r s)
       = spawned s
         ++ [Message.mk "message_created"
               (AnyMessageCreated
                  (MessageMessageCreated.mk (uuid_String messageID) message))
               (room_id r)]
     ∧ since s (handleCreateRoomMessage q r s)
       = [ESendJSON (JObj [("id", JStr (uuid_String messageID))])])
  ∨ (spawned (handleCreateRoomMessage q r s) = spawned s
     ∧ ∃ body status,
         List.filter http_visible (since s (handleCreateRoomMessage q r s))
         = [EHttpError body status]
         ∧ (400 ≤ status)%nat).
Proof.
  unfold handleCreateRoomMessage, readRoom, sendJSON.
  destruct (uuid_Parse (room_id r)) as [id|] eqn:Hparse; simpl.
  - destruct (GetRoom q id) as [room|[|detail]] eqn:Hroom; simpl.
    + destruct (Body r) as [message|] eqn:Hbody.
      * destruct (InsertMessage q id message) as [messageID|err] eqn:Hins.
        -- left. exists id, room, message, messageID. since_compute. by repeat split.
        -- right. since_compute. split; [done|]. eexists _, _. split; [done|].
           unfold StatusInternalServerError. lia.
      * right. since_compute. split; [done|]. eexists _, _. split; [done|].
        unfold StatusBadRequest. lia.
    + right. since_compute. split; [done|]. eexists _, _. split; [done|].
      unfold StatusBadRequest. lia.
    + right. since_compute. split; [done|]. eexists _, _. split; [done|].
      unfold StatusInternalServerError. lia.
  - right. since_compute. split; [done|]. eexists _, _. split; [done|].
    unfold StatusBadRequest. lia.
Qed.


(** ** Listings and single messages *)

(** X15. Whenever the store answers a listing, nil or not, the handler
    answers with an array holding the encoding of each row, in the order of
    the store. *)
Theorem listings_are_arrays q q' r s rooms messages id room :
  GetRooms q = Ok rooms →
  uuid_Parse (room_id r) = Some id →
  GetRoom q' id = Ok room →
  GetRoomMessages q' id = Ok messages →
  since s (handleGetRooms q r s)
  = [ESendJSON (JArr (marshal_Room <$> default [] rooms))]
  ∧ since s (handleGetRoomMessages q' r s)
    = [ESendJSON (JArr (marshal_StoredMessage <$> default [] messages))].
Proof.
  intros Hrooms Hparse Hroom Hmsgs.
  unfold handleGetRooms, handleGetRoomMessages, readRoom, sendJSON.
  rewrite Hrooms, Hparse, Hroom. simpl. rewrite Hmsgs.
  destruct rooms, messages; simpl; by rewrite !since_emit.
Qed.

(** X16. Once the room resolves, reading one message ends in one of four
    ways: a malformed message id (400, invalid message id); no such message
    (404, message not found); any other fault of the store, logged, with
    500 and the fixed text for the caller; or the encoded message. *)
Theorem handleGetRoomMessage_outcomes q r s id room :
  uuid_Parse (room_id r) = Some id →
  GetRoom q id = Ok room →
  (uuid_Parse (message_id r) = None
   ∧ since s (handleGetRoomMessage q r s) = [EHttpError "invalid message id" 400])
  ∨ (∃ messageID, uuid_Parse (message_id r) = Some messageID
     ∧ GetMessage q messageID = Err ErrNoRows
     ∧ since s (handleGetRoomMessage q r s) = [EHttpError "message not found" 404])
  ∨ (∃ messageID detail, uuid_Parse (message_id r) = Some messageID
     ∧ GetMessage q messageID = Err (ErrOther detail)
     ∧ since s (handleGetRoomMessage q r s)
       = [ESlog LevelError "failed to get message" detail;
          EHttpError "something went wrong" 500])
  ∨ (∃ messageID message, uuid_Parse (message_id r) = Some messageID
     ∧ GetMessage q messageID = Ok message
     ∧ since s (handleGetRoomMessage q r s)
       = [ESendJSON (marshal_StoredMessage message)]).
Proof.
  intros Hparse Hroom. unfold handleGetRoomMessage, readRoom, sendJSON.
  rewrite Hparse, Hroom. simpl.
  destruct (uuid_Parse (message_id r)) as [messageID|] eqn:Hmid.
  - destruct (GetMessage q messageID) as [message|[|detail]] eqn:Hget.
    + right; right; right. exists messageID, message. by rewrite since_emit.
    + right; left. exists messageID. by rewrite since_emit.
    + right; right; left. exists messageID, detail. by rewrite since_emit2.
  - left. by rewrite since_emit.
Qed.

(** X17. Reading one message looks the message up by its id alone: two
    requests for the same message id through two different rooms, both
    existing, get the same answer. *)
Theorem message_lookup_ignores_the_room q r1 r2 s id1 room1 id2 room2 :
  uuid_Parse (room_id r1) = Some id1 → GetRoom q id1 = Ok room1 →
  uuid_Parse (room_id r2) = Some id2 → GetRoom q id2 = Ok room2 →
  message_id r1 = message_id r2 →
  handleGetRoomMessage q r1 s = handleGetRoomMessage q r2 s.
Proof.
  intros Hp1 Hr1 Hp2 Hr2 Hmid. unfold handleGetRoomMessage, readRoom.
  by rewrite Hp1, Hr1, Hp2, Hr2, Hmid.
Qed.

End Handlers.

(** ** A worked scenario

    Room [r1] exists; two clients subscribe to it (connections 1 and 2), the
    first connection then breaks, and two messages are posted. *)

Definition example_Parse (raw : string) : option nat :=
  if decide (raw = "r1") then Some 1%nat else None.

Definition example_String (id : nat) : string := pretty id.

Definition example_q : @Queries nat string string :=
  mkQueries (λ _, Ok "room") (Ok None) (λ _, Ok 2%nat) (λ _, Ok None)
            (λ _ _, Ok 7%nat) (λ _, Err ErrNoRows) (λ _, Ok 1%Z).


Definition example_r : Request :=
  mkRequest "r1" "m1" "10.0.0.1" (Some "hi") None.

(** The same request, not a websocket handshake: the upgrader rejects it
    and answers 400 itself. *)
Definition example_r_plain : Request :=
  mkRequest "r1" "m1" "10.0.0.1" (Some "hi")
    (Some (mkUpgradeError "websocket: the client is not using the websocket protocol"
             (Some ("Bad Request", 400%nat)))).

Definition example_msg : Message.t :=
  Message.mk MessageKindMessageCreated
    (AnyMessageCreated (MessageMessageCreated.mk "7" "hi")) "r1".

Definition example_run : list (@Action nat string string) → Sys → Sys :=
  run example_Parse example_String JStr JStr.

Definition example_setup : list (@Action nat string string) :=
  [AServe GetSubscribe example_q example_r;
   AServe GetSubscribe example_q example_r;
   ABreak 1%positive].

Definition example_posts : list (@Action nat string string) :=
  [AServe PostMessages example_q example_r;
   AServe PostMessages example_q example_r;
   AGo 0 map_to_list;
   AGo 0 map_to_list].

(** Two subscribers of [r1], the first one broken. *)
Definition example_room : Sys := example_run example_setup NewHandler.

(** The same, then two posted messages and their two dispatches, with no
    [handleSubscribe] call woken in between. *)
Definition example_two_dispatches : Sys :=
  example_run (example_setup ++ example_posts) NewHandler.

Definition example_payload : JSON :=
  JObj [("kind", JStr "message_created");
        ("value", JObj [("id", JStr "7"); ("message", JStr "hi")])].

Lemma notifyClients_sends_to_each_subscriber_once_witness :
  NoDup (sends (since example_room (notifyClients map_to_list example_msg example_room)))
  ∧ length (sends (since example_room (notifyClients map_to_list example_msg example_room)))
    = size (room_subscribers (subscribers example_room) "r1").
Proof.
  apply (notifyClients_sends_to_each_subscriber_once map_to_list example_msg example_room).
  intros m. reflexivity.
Defined.

(** C2, as the claim states it, fails: connection 1 is written to and fails
    in both dispatches, and its cancellation is invoked in both, while its
    [handleSubscribe] call is still parked and the handle still registered. *)
Lemma cancel_invoked_again_before_cleanup :
  parked example_two_dispatches !! 1%positive = Some ("r1", 1%positive)
  ∧ room_subscribers (subscribers example_two_dispatches) "r1" !! 1%positive
    = Some 1%positive
  ∧ count_occ Pos.eq_dec (cancels (trace example_two_dispatches)) 1%positive = 2
  ∧ count_occ Pos.eq_dec (cancels (trace example_two_dispatches)) 1%positive ≠ 1.
Proof. vm_compute. repeat split; congruence. Qed.

Lemma notifyClients_cancels_once_per_dispatch_witness :
  cancels (since example_room (notifyClients map_to_list example_msg example_room))
  ≡ₚ (failing (broken example_room)
        (room_subscribers (subscribers example_room) "r1")).*2
  ∧ done (notifyClients map_to_list example_msg
            (notifyClients map_to_list example_msg example_room))
    = done (notifyClients map_to_list example_msg example_room).
Proof.
  destruct (notifyClients_cancels_once_per_dispatch map_to_list map_to_list
              example_msg example_room) as (H1 & _ & _ & H4).
  - intros m. reflexivity.
  - intros m. reflexivity.
  - split; [exact H1 | exact H4].
Defined.

Lemma dispatch_never_mutates_registry_witness :
  subscribers (notifyClients map_to_list example_msg example_room)
  = subscribers example_room.
Proof.
  apply (dispatch_never_mutates_registry example_Parse example_String JStr JStr
           map_to_list example_msg example_room).
  intros m. reflexivity.
Defined.

Lemma notifyClients_no_subscribers_witness :
  notifyClients map_to_list example_msg NewHandler = NewHandler
  ∧ sends (since NewHandler (notifyClients map_to_list example_msg NewHandler)) = [].
Proof.
  apply (notifyClients_no_subscribers map_to_list example_msg NewHandler).
  left. reflexivity.
Defined.

Lemma unregister_idempotent_witness :
  unregister "r1" 3%positive (unregister "r1" 3%positive (subscribers example_room))
  = unregister "r1" 3%positive (subscribers example_room)
  ∧ unregister "r1" 3%positive (subscribers example_room) = subscribers example_room.
Proof.
  destruct (unregister_idempotent "r1" 3%positive (subscribers example_room)) as [H1 H2].
  split; [exact H1 | apply H2; vm_compute; reflexivity].
Defined.

Lemma delivered_events_wire_shape_witness :
  ∃ k v, example_payload = JObj [("kind", JStr k); ("value", v)]
         ∧ k ∈ ["message_created"; "message_reaction_increased";
                "message_reaction_decreased"; "message_answered"].
Proof.
  destruct (delivered_events_wire_shape example_Parse example_String JStr JStr
              (example_setup ++ example_posts) 2%positive example_payload true)
    as (k & v & H1 & H2 & _).
  - apply list_elem_of_In. vm_compute. tauto.
  - exists k, v. split; [exact H1 | exact H2].
Defined.

Lemma failed_accept_leaves_registry_witness :
  subscribers (handleSubscribe_enter example_Parse example_q example_r_plain example_room)
  = subscribers example_room
  ∧ parked (handleSubscribe_enter example_Parse example_q example_r_plain example_room)
    = parked example_room
  ∧ List.filter http_visible
      (since example_room
         (handleSubscribe_enter example_Parse example_q example_r_plain example_room))
    = [EHttpError "Bad Request" 400;
       EHttpError "failed to upgrade to websocket connection" 400].
Proof.
  destruct (failed_accept_leaves_registry example_Parse example_q example_r_plain
              example_room)
    as (H1 & H2 & before & body & status & Hf & _ & [[Hn _]|(err & Hup & -> & -> & ->)]).
  - right. right. eexists. reflexivity.
  - discriminate Hn.
  - injection Hup as <-. split; [exact H1|]. split; [exact H2|exact Hf].
Defined.

Lemma nil_list_encodes_as_empty_array_witness :
  since NewHandler (handleGetRooms JStr example_q example_r NewHandler)
  = [ESendJSON (JArr [])]
  ∧ since NewHandler
      (handleGetRoomMessages example_Parse JStr example_q example_r NewHandler)
    = [ESendJSON (JArr [])].
Proof.
  destruct (nil_list_encodes_as_empty_array example_Parse JStr JStr
              example_q example_q example_r NewHandler 1%nat "room")
    as (H1 & H2 & _); try reflexivity.
  split; [exact H1 | exact H2].
Defined.

(** ** The worked scenario, continued *)

(** A parse that accepts every identifier, a second room, and a store with
    rows to list. *)
Definition example_Parse_any (raw : string) : option nat := Some (String.length raw).

Definition example_r_other : Request :=
  mkRequest "room2" "m1" "10.0.0.2" (Some "hi") None.

Definition example_q_rows : @Queries nat string string :=
  mkQueries (λ _, Ok "room") (Ok (Some ["lobby"; "help"])) (λ _, Ok 2%nat)
            (λ _, Ok (Some ["hi"])) (λ _ _, Ok 7%nat) (λ _, Ok "hi") (λ _, Ok 1%Z).

Lemma unregister_after_register_witness :
  unregister "r1" 3%positive (register "r1" 3%positive 3%positive (subscribers example_room))
  = <[ "r1" := room_subscribers (subscribers example_room) "r1" ]> (subscribers example_room).
Proof.
  destruct (unregister_after_register "r1" 3%positive 3%positive (subscribers example_room))
    as [_ H].
  - vm_compute. reflexivity.
  - exact H.
Defined.

Lemma accepted_subscriber_is_registered_witness :
  parked (handleSubscribe_enter example_Parse example_q example_r NewHandler)
    !! next NewHandler
  = Some ("r1", next NewHandler).
Proof.
  destruct (accepted_subscriber_is_registered example_Parse example_q example_r
              NewHandler 1%nat "room" eq_refl eq_refl eq_refl) as (_ & H & _).
  exact H.
Defined.

Lemma subscriptions_are_counted_witness :
  size (room_subscribers
          (subscribers (example_run (replicate 3 (AServe GetSubscribe example_q example_r))
                          NewHandler)) "r1")
  = 3.
Proof.
  apply (subscriptions_are_counted example_Parse example_String JStr JStr
           example_q example_r 1%nat "room" 3); reflexivity.
Defined.

Lemma registry_holds_the_parked_calls_witness :
  room_subscribers (subscribers example_room) "r1" !! 3%positive = None.
Proof.
  destruct (registry_holds_the_parked_calls example_Parse example_String JStr JStr
              example_setup "r1" 3%positive 3%positive) as [_ H].
  apply H. vm_compute. reflexivity.
Defined.

Lemma dispatch_reaches_only_the_room_witness :
  2%positive ∈ sends (since example_room (notifyClients map_to_list example_msg example_room)).
Proof.
  apply (dispatch_reaches_only_the_room example_Parse example_String JStr JStr
           map_to_list example_setup example_msg 2%positive).
  - intros m. reflexivity.
  - exists 2%positive. vm_compute. reflexivity.
Defined.

Lemma departed_handle_is_not_written_witness :
  1%positive
  ∉ sends (since (example_run ((example_setup ++ example_posts)
                               ++ AWake 1%positive
                                  :: [AServe GetSubscribe example_q example_r]) NewHandler)
             (notifyClients map_to_list example_msg
                (example_run ((example_setup ++ example_posts)
                              ++ AWake 1%positive
                                 :: [AServe GetSubscribe example_q example_r]) NewHandler))).
Proof.
  apply (departed_handle_is_not_written example_Parse example_String JStr JStr
           map_to_list (example_setup ++ example_posts)
           [AServe GetSubscribe example_q example_r] example_msg
           1%positive "r1" 1%positive).
  - intros m. reflexivity.
  - vm_compute. reflexivity.
  - apply (bool_decide_unpack _). vm_compute. exact I.
Defined.

Lemma failed_subscriber_leaves_on_wake_witness :
  parked (handleSubscribe_exit 1%positive
            (notifyClients map_to_list example_msg example_room)) !! 1%positive
  = None.
Proof.
  destruct (failed_subscriber_leaves_on_wake example_Parse example_String JStr JStr
              map_to_list example_setup example_msg 1%positive 1%positive)
    as (_ & _ & H).
  - intros m. reflexivity.
  - vm_compute. reflexivity.
  - apply (bool_decide_unpack _). vm_compute. exact I.
  - exact H.
Defined.

Lemma dispatch_writes_the_event_witness :
  example_payload = Message.marshal example_msg
  ∧ (true = true ↔ 2%positive ∉ broken example_room).
Proof.
  destruct (dispatch_writes_the_event map_to_list example_msg example_room) as [H _].
  - intros m. reflexivity.
  - apply (H 2%positive example_payload true).
    apply list_elem_of_In. vm_compute. tauto.
Defined.


Lemma listings_are_arrays_witness :
  since NewHandler (handleGetRooms JStr example_q_rows example_r NewHandler)
  = [ESendJSON (JArr [JStr "lobby"; JStr "help"])]
  ∧ since NewHandler
      (handleGetRoomMessages example_Parse JStr example_q_rows example_r NewHandler)
    = [ESendJSON (JArr [JStr "hi"])].
Proof.
  apply (listings_are_arrays example_Parse JStr JStr example_q_rows example_q_rows
           example_r NewHandler (Some ["lobby"; "help"]) (Some ["hi"]) 1%nat "room");
    reflexivity.
Defined.

Lemma handleGetRoomMessage_outcomes_witness :
  since NewHandler (handleGetRoomMessage example_Parse_any JStr example_q_rows
                      example_r NewHandler)
  = [ESendJSON (JStr "hi")].
Proof.
  destruct (handleGetRoomMessage_outcomes example_Parse_any JStr example_q_rows
              example_r NewHandler 2%nat "room" eq_refl eq_refl)
    as [[H _]|[(m & _ & H & _)|[(m & d & _ & H & _)|(m & x & _ & H & E)]]];
    try discriminate H.
  injection H as <-. exact E.
Defined.

Lemma message_lookup_ignores_the_room_witness :
  handleGetRoomMessage example_Parse_any JStr example_q_rows example_r NewHandler
  = handleGetRoomMessage example_Parse_any JStr example_q_rows example_r_other NewHandler.
Proof.
  apply (message_lookup_ignores_the_room example_Parse_any JStr example_q_rows
           example_r example_r_other NewHandler 2%nat "room" 5%nat "room");
    reflexivity.
Defined.
